(** * Metrics ledger and style configuration store of lottie-animation-search

    A shallow embedding of
    - [src/metrics/types.ts], [src/metrics/storage.ts] and
      [src/metrics/collector.ts] (the invocation ledger),
    - [src/metrics/issues.ts] (the issue ledger),
    - [src/config/styles.ts] (the global/project style configuration).

    JavaScript numbers that the code only ever fills with integers
    (millisecond durations obtained as [Date.now()] differences, counters)
    are modelled as [Z].  The plain objects the style code uses as
    dictionaries ([Record<string, T>]) are modelled by their own properties
    together with what they inherit: [k in o] and [o[k]] see the members of
    [Object.prototype], and [o["__proto__"] = v] runs its setter. *)

From Stdlib Require Import ZArith Lia Ascii String DecimalString.
From stdpp Require Import base gmap strings list fin_maps.

Open Scope Z_scope.
#[local] Set Warnings "-register-all".

(* ===================================================================== *)
(** ** Metrics data (src/metrics/types.ts) *)
(* ===================================================================== *)

(** JSON values, for the opaque [arguments] and [result] payloads. *)
Inductive json : Type :=
| JNull
| JBool (b : bool)
| JNum (n : Z)
| JStr (s : string)
| JArr (xs : list json)
| JObj (kvs : list (string * json)).

Record ToolInvocation : Type := mkToolInvocation {
  tool : string;
  timestamp : string;
  duration_ms : Z;
  reasoning : string;
  arguments : list (string * json);
  success : bool;
  error : option string;
  result : option json
}.

Record ToolStats : Type := mkToolStats {
  call_count : Z;
  total_duration_ms : Z;
  avg_duration_ms : Z;
  success_count : Z;
  error_count : Z;
  last_used : string
}.

Record MetricsData : Type := mkMetricsData {
  server_name : string;
  created_at : string;
  updated_at : string;
  total_invocations : Z;
  tool_stats : gmap string ToolStats;
  invocations : list ToolInvocation
}.

(** [createEmptyMetricsData(serverName)]; [now] is [new Date().toISOString()]. *)
Definition createEmptyMetricsData (serverName now : string) : MetricsData :=
  {| server_name := serverName; created_at := now; updated_at := now;
     total_invocations := 0; tool_stats := ∅; invocations := [] |}.

(** [Math.round(p / q)] for integers [p] and [q > 0]:
    [Math.round(x) = floor(x + 1/2)], and [floor((p/q) + 1/2) =
    floor((2p + q) / 2q)]. *)
Definition math_round_div (p q : Z) : Z := (2 * p + q) `div` (2 * q).

(* ===================================================================== *)
(** ** MetricsCollector.updateToolStats (src/metrics/collector.ts) *)
(* ===================================================================== *)

(** [tool_stats] is a plain object indexed by tool name; its keys are the
    names the server registers (snake_case, e.g. "save_style"), none of
    which is an Object.prototype member, so an own-property map models it. *)
Definition updateToolStats (invocation : ToolInvocation)
    (stats : gmap string ToolStats) : gmap string ToolStats :=
  let toolName := tool invocation in
  match stats !! toolName with
  | Some existing =>
      let cc := call_count existing + 1 in
      let td := total_duration_ms existing + duration_ms invocation in
      <[toolName := {| call_count := cc;
                       total_duration_ms := td;
                       avg_duration_ms := math_round_div td cc;
                       last_used := timestamp invocation;
                       success_count :=
                         if success invocation then success_count existing + 1
                         else success_count existing;
                       error_count :=
                         if success invocation then error_count existing
                         else error_count existing + 1 |}]> stats
  | None =>
      (* First invocation of this tool *)
      <[toolName := {| call_count := 1;
                       total_duration_ms := duration_ms invocation;
                       avg_duration_ms := duration_ms invocation;
                       success_count := if success invocation then 1 else 0;
                       error_count := if success invocation then 0 else 1;
                       last_used := timestamp invocation |}]> stats
  end.

(* ===================================================================== *)
(** ** trimInvocationsForSize (src/metrics/storage.ts) *)
(* ===================================================================== *)

Section Trim.

(** [JSON.stringify(data).length]: the size estimate the trim loop
    re-measures.  The results below hold for every such measure. *)
Variable stringify_length : MetricsData -> Z.

(** [Math.max(1, Math.floor(data.invocations.length * 0.25))] *)
Definition removeCount (d : MetricsData) : nat :=
  Nat.max 1 (Nat.div (length (invocations d)) 4).

(** The loop body: [data.invocations = data.invocations.slice(removeCount)]. *)
Definition trim_body (d : MetricsData) : MetricsData :=
  {| server_name := server_name d; created_at := created_at d;
     updated_at := updated_at d; total_invocations := total_invocations d;
     tool_stats := tool_stats d;
     invocations := skipn (removeCount d) (invocations d) |}.

(** The loop condition:
    [currentSize > maxSizeBytes && data.invocations.length > 0]. *)
Definition trim_cond (maxSizeBytes : Z) (d : MetricsData) : bool :=
  bool_decide (stringify_length d > maxSizeBytes) &&
  bool_decide (0 < length (invocations d))%nat.

(** The [while] loop, run with an iteration budget. *)
Fixpoint trim_loop (fuel : nat) (maxSizeBytes : Z) (d : MetricsData)
    : MetricsData :=
  match fuel with
  | O => d
  | S fuel' =>
      if trim_cond maxSizeBytes d then trim_loop fuel' maxSizeBytes (trim_body d)
      else d
  end.

(** Every iteration removes at least one invocation, so
    [length + 1] iterations always suffice (see [trim_loop_enough]). *)
Definition trimInvocationsForSize (d : MetricsData) (maxSizeBytes : Z)
    : MetricsData :=
  trim_loop (S (length (invocations d))) maxSizeBytes d.

(** Big-step semantics of the [while] loop, with no budget. *)
Inductive trim_exec (maxSizeBytes : Z) : MetricsData -> MetricsData -> Prop :=
| trim_exec_done d :
    trim_cond maxSizeBytes d = false -> trim_exec maxSizeBytes d d
| trim_exec_iter d d' :
    trim_cond maxSizeBytes d = true ->
    trim_exec maxSizeBytes (trim_body d) d' ->
    trim_exec maxSizeBytes d d'.

End Trim.

(* ===================================================================== *)
(** ** MetricsCollector (src/metrics/collector.ts) *)
(* ===================================================================== *)

(** The fields of a collector.  [mc_writeQueue] is the chain of pending
    [persistToDisk] tasks, one per queued write, oldest first. *)
Record MetricsCollector : Type := mkMetricsCollector {
  mc_data : MetricsData;
  mc_serverName : string;
  mc_maxSizeBytes : Z;
  mc_writeQueue : nat;
  mc_initialized : bool
}.

(** [record(invocation)]; [now] is [new Date().toISOString()].  The second
    component is what the call prints with [console.error]. *)
Definition record (now : string) (invocation : ToolInvocation)
    (c : MetricsCollector) : MetricsCollector * list string :=
  if negb (mc_initialized c) then
    (c, ["MetricsCollector not initialized, skipping record"])
  else
    let d := mc_data c in
    let d' := {| server_name := server_name d; created_at := created_at d;
                 updated_at := now;
                 total_invocations := total_invocations d + 1;
                 tool_stats := updateToolStats invocation (tool_stats d);
                 invocations := invocations d ++ [invocation] |} in
    ({| mc_data := d'; mc_serverName := mc_serverName c;
        mc_maxSizeBytes := mc_maxSizeBytes c;
        mc_writeQueue := S (mc_writeQueue c);
        mc_initialized := mc_initialized c |}, []).

Section Persist.

Variable stringify_length : MetricsData -> Z.

(** The next queued [persistToDisk] task starts: the in-memory data is
    trimmed in place.  The rest of the task, [await saveMetrics(this.data)],
    first awaits [ensureMetricsDir()] and then serializes [this.data] as it
    is at that time, records made meanwhile included; it changes nothing in
    memory, and the metrics file is not part of this model. *)
Definition persistToDisk (c : MetricsCollector) : MetricsCollector :=
  match mc_writeQueue c with
  | O => c
  | S q =>
      let d' := trimInvocationsForSize stringify_length (mc_data c)
                  (mc_maxSizeBytes c) in
      {| mc_data := d'; mc_serverName := mc_serverName c;
         mc_maxSizeBytes := mc_maxSizeBytes c; mc_writeQueue := q;
         mc_initialized := mc_initialized c |}
  end.

(** What can happen to a collector: a call of [record], or the next queued
    write task starting. *)
Inductive mc_event : Type :=
| ERecord (now : string) (invocation : ToolInvocation)
| EPersist.

Definition mc_step (c : MetricsCollector) (e : mc_event) : MetricsCollector :=
  match e with
  | ERecord now inv => fst (record now inv c)
  | EPersist => persistToDisk c
  end.

Definition mc_run (c : MetricsCollector) (es : list mc_event) : MetricsCollector :=
  fold_left mc_step es c.

End Persist.

(** The invocations recorded by a run, in order. *)
Fixpoint recorded (es : list mc_event) : list ToolInvocation :=
  match es with
  | [] => []
  | ERecord _ inv :: es' => inv :: recorded es'
  | EPersist :: es' => recorded es'
  end.

(* ===================================================================== *)
(** ** IssueCollector (src/metrics/issues.ts) *)
(* ===================================================================== *)

Inductive IssueSeverity : Type := low | medium | high | critical.

Inductive IssueCategory : Type :=
| bug | feature_request | documentation | performance | security | other.

Record IssueReport : Type := mkIssueReport {
  id : string;
  title : string;
  description : string;
  severity : IssueSeverity;
  category : IssueCategory;
  steps_to_reproduce : option string;
  expected_behavior : option string;
  actual_behavior : option string;
  environment : option string;
  issue_created_at : string
}.

Record IssuesData : Type := mkIssuesData {
  issues_server_name : string;
  issues_created_at : string;
  issues_updated_at : string;
  total_issues : Z;
  issues : list IssueReport
}.

Record ReportParams : Type := mkReportParams {
  p_title : string;
  p_description : string;
  p_severity : IssueSeverity;
  p_category : IssueCategory;
  p_steps_to_reproduce : option string;
  p_expected_behavior : option string;
  p_actual_behavior : option string;
  p_environment : option string
}.

(** Maximum number of issues to keep in the file *)
Definition MAX_ISSUES : nat := 100.

Record IssueCollector : Type := mkIssueCollector {
  ic_data : IssuesData;
  ic_serverName : string;
  ic_writeQueue : nat;
  ic_initialized : bool
}.

(** [report(params)].  [issueId] is the value of [generateIssueId()],
    [created] and [updated] the two [new Date().toISOString()] calls.
    [inl msg] is a thrown [Error(msg)]. *)
Definition report (issueId created updated : string) (params : ReportParams)
    (c : IssueCollector) : string + (IssueReport * IssueCollector) :=
  if negb (ic_initialized c) then inl "IssueCollector not initialized"
  else
    let issue := {| id := issueId; title := p_title params;
                    description := p_description params;
                    severity := p_severity params;
                    category := p_category params;
                    steps_to_reproduce := p_steps_to_reproduce params;
                    expected_behavior := p_expected_behavior params;
                    actual_behavior := p_actual_behavior params;
                    environment := p_environment params;
                    issue_created_at := created |} in
    let d := ic_data c in
    (* Add to beginning of array (newest first) *)
    let is1 := issue :: issues d in
    (* Trim old issues if we exceed the limit *)
    let is2 := if bool_decide (MAX_ISSUES < length is1)%nat
               then take MAX_ISSUES is1 else is1 in
    let d' := {| issues_server_name := issues_server_name d;
                 issues_created_at := issues_created_at d;
                 issues_updated_at := updated;
                 total_issues := total_issues d + 1;
                 issues := is2 |} in
    inr (issue, {| ic_data := d'; ic_serverName := ic_serverName c;
                   ic_writeQueue := S (ic_writeQueue c);
                   ic_initialized := ic_initialized c |}).

(* ===================================================================== *)
(** ** Style configuration (src/config/styles.ts) *)
(* ===================================================================== *)

(** *** Plain objects used as dictionaries

    The style code keeps its maps in plain objects and uses them with
    [k in o], [o[k]] and [o[k] = v], which also see what an object inherits.
    An object made by a literal, a spread or [JSON.parse] inherits from
    [Object.prototype]; such a plain object is represented by its own
    properties, a [gmap string A], and the operations below add what
    [Object.prototype] contributes. *)

(** The methods of [Object.prototype] (ECMAScript 2023 with Annex B). *)
Definition object_prototype_methods : list string :=
  ["constructor"; "__defineGetter__"; "__defineSetter__"; "hasOwnProperty";
   "__lookupGetter__"; "__lookupSetter__"; "isPrototypeOf";
   "propertyIsEnumerable"; "toString"; "valueOf"; "toLocaleString"].

(** A member of [Object.prototype] read through an object: a method, given
    by the function's [name], or the value of the [__proto__] accessor, which
    for a plain object is [Object.prototype] itself. *)
Inductive ProtoMember : Type :=
| PMethod (fname : string)
| PObjectPrototype.

(** The value of [o[k]]: an own property, an inherited member, or
    [undefined]. *)
Inductive PropVal (A : Type) : Type :=
| Own (v : A)
| Inh (m : ProtoMember)
| Undefined.

Arguments Own {A} v.
Arguments Inh {A} m.
Arguments Undefined {A}.

(** What [Object.prototype] has under key [k]. *)
Definition object_prototype_member (k : string) : option ProtoMember :=
  if bool_decide (k = "__proto__") then Some PObjectPrototype
  else if bool_decide (k ∈ object_prototype_methods) then
    Some (PMethod (if bool_decide (k = "constructor") then "Object" else k))
  else None.

(** [o[k]] on a plain object. *)
Definition plain_get {A} (o : gmap string A) (k : string) : PropVal A :=
  match o !! k with
  | Some v => Own v
  | None =>
      match object_prototype_member k with
      | Some m => Inh m
      | None => Undefined
      end
  end.

(** [k in o] on a plain object. *)
Definition plain_has {A} (o : gmap string A) (k : string) : bool :=
  match o !! k with
  | Some _ => true
  | None =>
      match object_prototype_member k with
      | Some _ => true
      | None => false
      end
  end.

(** [o[k] = v] on a plain object, for a string [v]: an own property is
    created or updated, except for the key ["__proto__"] when it is not
    own, where the inherited setter runs and ignores a value that is not
    an object. *)
Definition plain_set_string {A} (o : gmap string A) (k : string) (v : A)
    : gmap string A :=
  match o !! k with
  | Some _ => <[k := v]> o
  | None => if bool_decide (k = "__proto__") then o else <[k := v]> o
  end.

(** [Object.keys(o)] *)
Definition object_keys {A} (m : gmap string A) : list string :=
  (map_to_list m).*1.

(** [if (v)]: own values here are arrays, and inherited members are
    functions or objects, all truthy. *)
Definition truthy {A} (v : PropVal A) : bool :=
  match v with
  | Undefined => false
  | _ => true
  end.

(** [String(v)], the key [config.styles[styleName]] reads for a value
    [styleName] taken from [config.folders]: a native function converts to
    the text V8 gives it, [Object.prototype] to ["[object Object]"]. *)
Definition property_key (v : PropVal string) : string :=
  match v with
  | Own s => s
  | Inh (PMethod f) => "function " ++ f ++ "() { [native code] }"
  | Inh PObjectPrototype => "[object Object]"
  | Undefined => "undefined"
  end.

(** The keys of [Array.prototype] (ECMAScript 2023, as in Node 20). *)
Definition array_prototype_keys : list string :=
  ["length"; "constructor"; "at"; "concat"; "copyWithin"; "entries"; "every";
   "fill"; "filter"; "find"; "findIndex"; "findLast"; "findLastIndex"; "flat";
   "flatMap"; "forEach"; "includes"; "indexOf"; "join"; "keys";
   "lastIndexOf"; "map"; "pop"; "push"; "reduce"; "reduceRight"; "reverse";
   "shift"; "slice"; "some"; "sort"; "splice"; "toLocaleString";
   "toReversed"; "toSorted"; "toSpliced"; "toString"; "unshift"; "values";
   "with"].

(** [String(i)] for an array index. *)
Definition nat_to_string (i : nat) : string :=
  NilZero.string_of_uint (Nat.to_uint i).

(** [k] is an index of the array [arr]. *)
Definition is_index_of (arr : list string) (k : string) : bool :=
  existsb (fun i => bool_decide (nat_to_string i = k)) (seq 0 (length arr)).

(** The [styles] object of one scope's config.  [JSON.parse] and
    [DEFAULT_CONFIG] give a plain object ([styles_proto = None]).  The
    assignment [config.styles["__proto__"] = tags], when ["__proto__"] is
    not an own key, runs the inherited setter, which makes the array [tags]
    the object's prototype ([styles_proto = Some tags]); the object then
    also inherits the array's indices, [Array.prototype] and, above it,
    [Object.prototype]. *)
Record StylesObject : Type := mkStylesObject {
  styles_own : gmap string (list string);   (* name -> tags *)
  styles_proto : option (list string)
}.

(** [name in config.styles] *)
Definition styles_has (o : StylesObject) (k : string) : bool :=
  match styles_own o !! k with
  | Some _ => true
  | None =>
      match styles_proto o with
      | Some arr =>
          is_index_of arr k || bool_decide (k ∈ array_prototype_keys) ||
          plain_has (∅ : gmap string unit) k
      | None => plain_has (∅ : gmap string unit) k
      end
  end.

(** [config.styles[name] = tags]: the value is an array, hence an object,
    so for a ["__proto__"] that is not own the setter makes it the
    prototype; any other key gets an own property (an inherited data
    property is writable, so the assignment creates an own one). *)
Definition styles_set (o : StylesObject) (k : string) (tgs : list string)
    : StylesObject :=
  match styles_own o !! k with
  | Some _ => {| styles_own := <[k := tgs]> (styles_own o);
                 styles_proto := styles_proto o |}
  | None =>
      if bool_decide (k = "__proto__")
      then {| styles_own := styles_own o; styles_proto := Some tgs |}
      else {| styles_own := <[k := tgs]> (styles_own o);
              styles_proto := styles_proto o |}
  end.

(** [delete config.styles[name]]: only an own property is removed. *)
Definition styles_delete (o : StylesObject) (k : string) : StylesObject :=
  {| styles_own := delete k (styles_own o); styles_proto := styles_proto o |}.

(** *** Configs and the merge *)

Record StyleConfig : Type := mkStyleConfig {
  styles : StylesObject;
  folders : gmap string string          (* folder path -> style name *)
}.

Inductive Scope : Type := Global | Project.

Global Instance Scope_eq_dec : EqDecision Scope.
Proof. solve_decision. Defined.

(** The merged config: four plain objects, given by their own
    properties. *)
Record MergedStyleConfig : Type := mkMergedStyleConfig {
  merged_styles : gmap string (list string);
  merged_folders : gmap string string;
  sources_styles : gmap string Scope;
  sources_folders : gmap string Scope
}.

(** [for (const k of keys) sources[k] = src;] *)
Definition mark_sources (src : Scope) (keys : list string)
    (sources : gmap string Scope) : gmap string Scope :=
  foldl (fun m k => plain_set_string m k src) sources keys.

(** [getMergedConfig()], given the two configs it reads. *)
Definition getMergedConfig (global project : StyleConfig) : MergedStyleConfig :=
  (* Mark global sources, then project sources (overrides) *)
  let ss := mark_sources Project (object_keys (styles_own (styles project)))
              (mark_sources Global (object_keys (styles_own (styles global))) ∅) in
  let sf := mark_sources Project (object_keys (folders project))
              (mark_sources Global (object_keys (folders global)) ∅) in
  {| (* { ...global.styles, ...project.styles }: a spread copies the own
        properties, later ones win *)
     merged_styles := styles_own (styles project) ∪ styles_own (styles global);
     merged_folders := folders project ∪ folders global;
     sources_styles := ss;
     sources_folders := sf |}.

(** *** Folder resolution *)

(** [folderPath.replace(/\/+$/, "")]: drop the trailing run of slashes. *)
Fixpoint strip_trailing_slashes (s : string) : string :=
  match s with
  | EmptyString => EmptyString
  | String c r =>
      let r' := strip_trailing_slashes r in
      if bool_decide (c = "/"%char) && bool_decide (r' = EmptyString)
      then EmptyString else String c r'
  end.

(** [s.split("/")] *)
Fixpoint split_slash (s : string) : list string :=
  match s with
  | EmptyString => [EmptyString]
  | String c r =>
      let parts := split_slash r in
      if bool_decide (c = "/"%char) then EmptyString :: parts
      else match parts with
           | [] => [String c EmptyString]
           | h :: t => String c h :: t
           end
  end.

(** [parts.join("/")] *)
Fixpoint join_slash (parts : list string) : string :=
  match parts with
  | [] => EmptyString
  | [x] => x
  | x :: parts' => x +:+ String "/"%char (join_slash parts')
  end.

(** [{ style: styleName, tags, matchedPath }] *)
Record StyleMatch : Type := mkStyleMatch {
  style : PropVal string;
  tags : PropVal (list string);
  matchedPath : string
}.

(** [if (p in config.folders) { const styleName = config.folders[p];
    const tags = config.styles[styleName];
    if (tags) return { style: styleName, tags, matchedPath: p }; }] *)
Definition resolve_at (config : MergedStyleConfig) (p : string)
    : option StyleMatch :=
  if plain_has (merged_folders config) p then
    let styleName := plain_get (merged_folders config) p in
    let tgs := plain_get (merged_styles config) (property_key styleName) in
    if truthy tgs then Some {| style := styleName; tags := tgs; matchedPath := p |}
    else None
  else None.

(** [for (let i = parts.length - 1; i > 0; i--)], entered with [i]. *)
Fixpoint parent_walk (config : MergedStyleConfig) (parts : list string)
    (i : nat) : option StyleMatch :=
  match i with
  | O => None
  | S j =>
      let parentPath := join_slash (take i parts) in
      match resolve_at config parentPath with
      | Some m => Some m
      | None => parent_walk config parts j
      end
  end.

(** The body of [getStyleForFolder] after [getMergedConfig()]. *)
Definition styleForFolderIn (config : MergedStyleConfig) (folderPath : string)
    : option StyleMatch :=
  let normalizedPath := strip_trailing_slashes folderPath in
  (* Check exact match first *)
  match resolve_at config normalizedPath with
  | Some m => Some m
  | None =>
      (* Check parent paths *)
      let parts := split_slash normalizedPath in
      parent_walk config parts (length parts - 1)
  end.

Definition getStyleForFolder (global project : StyleConfig) (folderPath : string)
    : option StyleMatch :=
  styleForFolderIn (getMergedConfig global project) folderPath.

(** *** The scope files and the shared [DEFAULT_CONFIG] object *)

(** The content of a scope file: the own properties of the [styles] and
    [folders] objects that [JSON.stringify] wrote (or a hand edit put
    there). *)
Record FileConfig : Type := mkFileConfig {
  file_styles : gmap string (list string);
  file_folders : gmap string string
}.

(** [readConfigFile] returns [{ ...DEFAULT_CONFIG }] when the file is absent
    or unreadable: a shallow copy whose [styles] and [folders] are the very
    objects of [DEFAULT_CONFIG].  A store therefore holds the two files
    ([None]: absent or invalid) and the current contents of
    [DEFAULT_CONFIG]. *)
Record StyleStore : Type := mkStyleStore {
  global_file : option FileConfig;
  project_file : option FileConfig;
  default_config : StyleConfig
}.

Definition emptyStyleConfig : StyleConfig :=
  {| styles := {| styles_own := ∅; styles_proto := None |}; folders := ∅ |}.

Definition scope_file (scope : Scope) (st : StyleStore) : option FileConfig :=
  match scope with
  | Global => global_file st
  | Project => project_file st
  end.

(** [JSON.parse] of a file: fresh plain objects with the file's entries. *)
Definition parse_file (f : FileConfig) : StyleConfig :=
  {| styles := {| styles_own := file_styles f; styles_proto := None |};
     folders := file_folders f |}.

(** [JSON.stringify(config)]: the own properties only. *)
Definition stringify_config (config : StyleConfig) : FileConfig :=
  {| file_styles := styles_own (styles config); file_folders := folders config |}.

(** [readGlobalConfig()] / [readProjectConfig()]: the config read and
    whether its [styles]/[folders] objects are those of [DEFAULT_CONFIG]. *)
Definition readScope (scope : Scope) (st : StyleStore) : StyleConfig * bool :=
  match scope_file scope st with
  | Some f => (parse_file f, false)
  | None => (default_config st, true)
  end.

(** [writeGlobalConfig(config)] / [writeProjectConfig(config)] *)
Definition writeScope (scope : Scope) (config : StyleConfig) (st : StyleStore)
    : StyleStore :=
  match scope with
  | Global => {| global_file := Some (stringify_config config);
                 project_file := project_file st;
                 default_config := default_config st |}
  | Project => {| global_file := global_file st;
                  project_file := Some (stringify_config config);
                  default_config := default_config st |}
  end.

(** An in-place mutation of a config obtained from [readScope]: when it
    shares its objects with [DEFAULT_CONFIG], that object changes too. *)
Definition mutate (aliased : bool) (config : StyleConfig) (st : StyleStore)
    : StyleStore :=
  if aliased then {| global_file := global_file st; project_file := project_file st;
                     default_config := config |}
  else st.

(** The scope file is deleted from disk by someone else. *)
Definition removeScopeFile (scope : Scope) (st : StyleStore) : StyleStore :=
  match scope with
  | Global => {| global_file := None; project_file := project_file st;
                 default_config := default_config st |}
  | Project => {| global_file := global_file st; project_file := None;
                  default_config := default_config st |}
  end.

(** [getMergedConfig()] on a store. *)
Definition getMergedConfigStore (st : StyleStore) : MergedStyleConfig :=
  getMergedConfig (readScope Global st).1 (readScope Project st).1.

(** [saveStyle(name, tags, scope)] *)
Definition saveStyle (name : string) (tgs : list string) (scope : Scope)
    (st : StyleStore) : StyleStore :=
  let '(config, aliased) := readScope scope st in
  let config' := {| styles := styles_set (styles config) name tgs;
                    folders := folders config |} in
  writeScope scope config' (mutate aliased config' st).

(** [deleteStyle(name, scope)] *)
Definition deleteStyle (name : string) (scope : Scope) (st : StyleStore)
    : bool * StyleStore :=
  let '(config, aliased) := readScope scope st in
  if styles_has (styles config) name then
    (* delete config.styles[name]; then, over the own entries of
       config.folders, delete every folder whose style is [name] *)
    let config' := {| styles := styles_delete (styles config) name;
                      folders := filter (fun kv => kv.2 <> name) (folders config) |} in
    (true, writeScope scope config' (mutate aliased config' st))
  else (false, st).

(** [setFolderStyle(folderPath, styleName, scope)] *)
Definition setFolderStyle (folderPath styleName : string) (scope : Scope)
    (st : StyleStore) : StyleStore :=
  let '(config, aliased) := readScope scope st in
  let normalizedPath := strip_trailing_slashes folderPath in
  let config' := {| styles := styles config;
                    folders := plain_set_string (folders config) normalizedPath styleName |} in
  writeScope scope config' (mutate aliased config' st).

(** [removeFolderStyle(folderPath, scope)] *)
Definition removeFolderStyle (folderPath : string) (scope : Scope) (st : StyleStore)
    : bool * StyleStore :=
  let '(config, aliased) := readScope scope st in
  let normalizedPath := strip_trailing_slashes folderPath in
  if plain_has (folders config) normalizedPath then
    (* delete config.folders[normalizedPath]: only an own property goes *)
    let config' := {| styles := styles config;
                      folders := delete normalizedPath (folders config) |} in
    (true, writeScope scope config' (mutate aliased config' st))
  else (false, st).

(** [getStyleTags(styleName)]: [config.styles[styleName] || null]. *)
Definition getStyleTags (st : StyleStore) (styleName : string)
    : option (PropVal (list string)) :=
  let v := plain_get (merged_styles (getMergedConfigStore st)) styleName in
  if truthy v then Some v else None.

(** [getStyleForFolder(folderPath)] on a store. *)
Definition getStyleForFolderStore (st : StyleStore) (folderPath : string)
    : option StyleMatch :=
  getStyleForFolder (readScope Global st).1 (readScope Project st).1 folderPath.

(** The scope [deleteStyle] must not reach into. *)
Definition other_scope (scope : Scope) : Scope :=
  match scope with Global => Project | Project => Global end.

(** The store of a fresh process where neither file exists. *)
Definition initialStyleStore : StyleStore :=
  {| global_file := None; project_file := None;
     default_config := emptyStyleConfig |}.

(** *** Successive reports *)

(** The values one [report] call draws from the clock and the id
    generator, and its parameters. *)
Record ReportCall : Type := mkReportCall {
  rc_id : string;
  rc_created : string;
  rc_updated : string;
  rc_params : ReportParams
}.

(** Successive [report] calls on one collector; the issues they return, in
    order, or the first error thrown. *)
Fixpoint report_run (calls : list ReportCall) (c : IssueCollector)
    : string + (list IssueReport * IssueCollector) :=
  match calls with
  | [] => inr ([], c)
  | rc :: calls' =>
      match report (rc_id rc) (rc_created rc) (rc_updated rc) (rc_params rc) c with
      | inl e => inl e
      | inr (issue, c') =>
          match report_run calls' c' with
          | inl e => inl e
          | inr (out, c'') => inr (issue :: out, c'')
          end
      end
  end.

(** Sum of the durations of a list of invocations. *)
Fixpoint sum_durations (invs : list ToolInvocation) : Z :=
  match invs with
  | [] => 0
  | i :: invs' => duration_ms i + sum_durations invs'
  end.

(** [r] is [x / n] rounded to the nearest integer, halves upward:
    [r - 1/2 <= x/n < r + 1/2]. *)
Definition rounds_to (x n r : Z) : Prop := n * (2 * r - 1) <= 2 * x < n * (2 * r + 1).

(** The invariant of a [ToolStats] entry. *)
Definition stats_ok (st : ToolStats) : Prop :=
  0 <= success_count st /\ 0 <= error_count st /\
  call_count st = success_count st + error_count st /\
  0 < call_count st /\
  avg_duration_ms st = math_round_div (total_duration_ms st) (call_count st) /\
  rounds_to (total_duration_ms st) (call_count st) (avg_duration_ms st).


(** *** Folder paths and their ancestors *)

(** [q] is an ancestor directory of [p]: [p] is [q], a slash, and more. *)
Definition is_ancestor (q p : string) : Prop :=
  exists r, p = q +:+ String "/"%char r.

(** The own association of [q] names a style that has an own entry. *)
Definition resolves (config : MergedStyleConfig) (q styleName : string)
    (tgs : list string) : Prop :=
  merged_folders config !! q = Some styleName /\
  merged_styles config !! styleName = Some tgs.

(** The keys [config.styles[styleName]] reads when [styleName] is a member
    of [Object.prototype] rather than an own association. *)
Definition inherited_key_texts : list string :=
  map (fun k => property_key (plain_get (∅ : gmap string string) k))
      ("__proto__" :: object_prototype_methods).

(** A merged config whose names stay clear of [Object.prototype]: every
    association names a style with an own entry or a name that is not a
    member of [Object.prototype], and no style is named like one of
    [inherited_key_texts]. *)
Definition ordinary_names (config : MergedStyleConfig) : bool :=
  forallb (fun kv => bool_decide (object_prototype_member kv.2 = None) ||
                     bool_decide (is_Some (merged_styles config !! kv.2)))
          (map_to_list (merged_folders config)) &&
  forallb (fun k => negb (bool_decide (k ∈ inherited_key_texts)))
          (object_keys (merged_styles config)).

(** [k] slashes. *)
Fixpoint slashes (k : nat) : string :=
  match k with
  | O => EmptyString
  | S k' => String "/"%char (slashes k')
  end.

(** The prefixes of [s] that stop just before a slash, shortest first. *)
Fixpoint slash_prefixes (s : string) : list string :=
  match s with
  | EmptyString => []
  | String c r =>
      (if bool_decide (c = "/"%char) then [EmptyString] else []) ++
      map (String c) (slash_prefixes r)
  end.

(** The first path of [qs] whose association resolves. *)
Fixpoint find_first (config : MergedStyleConfig) (qs : list string)
    : option StyleMatch :=
  match qs with
  | [] => None
  | q :: qs' =>
      match resolve_at config q with
      | Some m => Some m
      | None => find_first config qs'
      end
  end.

(** Every path of the list is shorter than the ones after it. *)
Fixpoint shorter_first (l : list string) : Prop :=
  match l with
  | [] => True
  | q :: l' => Forall (fun q' => (String.length q < String.length q')%nat) l' /\
               shorter_first l'
  end.


(** *** Sample values *)

(** A size estimate: ten characters per invocation. *)
Definition sample_length (d : MetricsData) : Z :=
  10 * Z.of_nat (length (invocations d)).

Definition sample_invocation (name : string) (ms : Z) (ok : bool)
    : ToolInvocation :=
  {| tool := name; timestamp := "2026-01-01T00:00:00.000Z"; duration_ms := ms;
     reasoning := "find an animation"; arguments := [("query", JStr "loading")];
     success := ok; error := if ok then None else Some "timeout";
     result := None |}.

Definition sample_collector (initialized : bool) : MetricsCollector :=
  {| mc_data := createEmptyMetricsData "lottie" "2026-01-01T00:00:00.000Z";
     mc_serverName := "lottie"; mc_maxSizeBytes := 15; mc_writeQueue := 0;
     mc_initialized := initialized |}.

(** Three searches of 100, 200 and 300 ms, an echo, and flushes that each
    trim the invocation list below 15 characters. *)
Definition sample_events : list mc_event :=
  [ERecord "t1" (sample_invocation "search" 100 true); EPersist;
   ERecord "t2" (sample_invocation "echo" 7 true);
   ERecord "t3" (sample_invocation "search" 200 false); EPersist;
   ERecord "t4" (sample_invocation "search" 300 true); EPersist].

Definition sample_params : ReportParams :=
  {| p_title := "Search returns nothing"; p_description := "Empty result";
     p_severity := medium; p_category := bug; p_steps_to_reproduce := None;
     p_expected_behavior := None; p_actual_behavior := None;
     p_environment := None |}.

Definition sample_issue (_ : nat) : IssueReport :=
  {| id := "old"; title := "old issue"; description := "";
     severity := low; category := other; steps_to_reproduce := None;
     expected_behavior := None; actual_behavior := None; environment := None;
     issue_created_at := "2025-12-31T00:00:00.000Z" |}.

Definition sample_issue_collector (initialized : bool) (n : nat) : IssueCollector :=
  {| ic_data := {| issues_server_name := "lottie";
                   issues_created_at := "2025-12-01T00:00:00.000Z";
                   issues_updated_at := "2025-12-31T00:00:00.000Z";
                   total_issues := Z.of_nat n;
                   issues := map sample_issue (seq 0 n) |};
     ic_serverName := "lottie"; ic_writeQueue := 0;
     ic_initialized := initialized |}.

(** A store whose project file defines style [x]. *)
Definition sample_style_store : StyleStore :=
  {| global_file := None;
     project_file := Some {| file_styles := {[ "x" := ["pastel"] ]};
                             file_folders := ∅ |};
     default_config := emptyStyleConfig |}.

(** The store the folder tools build for associations [/a = S1] and
    [/a/b = NAME], with style [S1 = [tag1]], all in the project scope. *)
Definition inherited_name_store (name : string) : StyleStore :=
  setFolderStyle "/a/b" name Project
    (setFolderStyle "/a" "S1" Project
       (saveStyle "S1" ["tag1"] Project initialStyleStore)).

(** The configuration of the nearest-ancestor example: [/a = S1],
    [/a/b = S2]. *)
Definition nearest_example : StyleConfig :=
  {| styles := {| styles_own := <["S1" := ["tag1"]]> {[ "S2" := ["tag2"] ]};
                  styles_proto := None |};
     folders := <["/a" := "S1"]> {[ "/a/b" := "S2" ]} |}.

Definition sample_calls : list ReportCall :=
  [{| rc_id := "mk1-abc123"; rc_created := "t1"; rc_updated := "t1";
      rc_params := sample_params |};
   {| rc_id := "mk2-def456"; rc_created := "t2"; rc_updated := "t2";
      rc_params := sample_params |}].

(* ===================================================================== *)
(** * Proofs *)
(* ===================================================================== *)

(* ===================================================================== *)
(** ** The trim loop *)
(* ===================================================================== *)

Lemma trim_cond_unfold (stringify_length : MetricsData -> Z) (maxSizeBytes : Z)
    (d : MetricsData) :
  trim_cond stringify_length maxSizeBytes d =
  bool_decide (stringify_length d > maxSizeBytes) &&
  bool_decide (0 < length (invocations d))%nat.
Proof. reflexivity. Qed.

Section TrimProofs.

Variable stringify_length : MetricsData -> Z.

Abbreviation trim_cond := (trim_cond stringify_length).
Abbreviation trim_loop := (trim_loop stringify_length).
Abbreviation trim_exec := (trim_exec stringify_length).
Abbreviation trimInvocationsForSize := (trimInvocationsForSize stringify_length).

Lemma removeCount_pos (d : MetricsData) : (1 <= removeCount d)%nat.
Proof. unfold removeCount. lia. Qed.

Lemma trim_body_shorter (d : MetricsData) :
  (0 < length (invocations d))%nat ->
  (length (invocations (trim_body d)) < length (invocations d))%nat.
Proof.
  intros Hpos. simpl. rewrite length_skipn.
  pose proof (removeCount_pos d). lia.
Qed.

Lemma trim_cond_true (maxSizeBytes : Z) (d : MetricsData) :
  trim_cond maxSizeBytes d = true <->
  stringify_length d > maxSizeBytes /\ (0 < length (invocations d))%nat.
Proof.
  rewrite trim_cond_unfold, andb_true_iff, !bool_decide_eq_true. done.
Qed.

(** A budget above the number of invocations runs the loop to its end. *)
Lemma trim_loop_enough (maxSizeBytes : Z) (fuel : nat) (d : MetricsData) :
  (length (invocations d) < fuel)%nat ->
  trim_exec maxSizeBytes d (trim_loop fuel maxSizeBytes d).
Proof.
  revert d. induction fuel as [|fuel IH]; intros d Hlt; [lia|].
  simpl. destruct (trim_cond maxSizeBytes d) eqn:Hc.
  - apply trim_exec_iter; [done|]. apply IH.
    apply trim_cond_true in Hc as [_ Hpos].
    pose proof (trim_body_shorter d Hpos). lia.
  - by apply trim_exec_done.
Qed.

Lemma trim_exec_functional (maxSizeBytes : Z) (d d1 d2 : MetricsData) :
  trim_exec maxSizeBytes d d1 -> trim_exec maxSizeBytes d d2 -> d1 = d2.
Proof.
  intros H1. revert d2. induction H1 as [d Hc|d d1 Hc H1 IH]; intros d2 H2;
    inversion H2; subst; congruence || auto.
Qed.

Lemma trimInvocationsForSize_exec (maxSizeBytes : Z) (d : MetricsData) :
  trim_exec maxSizeBytes d (trimInvocationsForSize d maxSizeBytes).
Proof. apply trim_loop_enough. lia. Qed.

Lemma trimInvocationsForSize_unfold (maxSizeBytes : Z) (d : MetricsData) :
  trimInvocationsForSize d maxSizeBytes =
  if trim_cond maxSizeBytes d
  then trimInvocationsForSize (trim_body d) maxSizeBytes else d.
Proof.
  destruct (trim_cond maxSizeBytes d) eqn:Hc.
  - eapply trim_exec_functional; [apply trimInvocationsForSize_exec|].
    apply trim_exec_iter; [done|]. apply trimInvocationsForSize_exec.
  - eapply trim_exec_functional; [apply trimInvocationsForSize_exec|].
    by apply trim_exec_done.
Qed.

(** What a finished loop leaves: its condition is false, and only
    [invocations] changed, by dropping a prefix. *)
Lemma trim_exec_result (maxSizeBytes : Z) (d d' : MetricsData) :
  trim_exec maxSizeBytes d d' ->
  trim_cond maxSizeBytes d' = false /\
  server_name d' = server_name d /\ created_at d' = created_at d /\
  updated_at d' = updated_at d /\
  total_invocations d' = total_invocations d /\ tool_stats d' = tool_stats d /\
  exists k, invocations d' = skipn k (invocations d).
Proof.
  induction 1 as [d Hc|d d' Hc H IH].
  - split_and!; try done. by exists 0%nat.
  - destruct IH as (Hc' & ? & ? & ? & ? & ? & k & Hk). simpl in *.
    split_and!; try done. exists (k + removeCount d)%nat.
    by rewrite Hk, skipn_skipn.
Qed.

(** ** C2: the flush-time trim.
    While the serialized document exceeds the maximum and invocations
    remain, one iteration drops the oldest
    [max(1, floor(0.25 * count))] invocations and the loop goes on with the
    re-measured document; otherwise the document is returned as is.  The
    result is under the limit or has no invocations left, and its
    [tool_stats] and [total_invocations] are those of the input. *)
Theorem trim_flush_behaviour (d : MetricsData) (maxSizeBytes : Z) :
  trimInvocationsForSize d maxSizeBytes =
    (if bool_decide (stringify_length d > maxSizeBytes) &&
        bool_decide (0 < length (invocations d))%nat
     then trimInvocationsForSize
            {| server_name := server_name d; created_at := created_at d;
               updated_at := updated_at d;
               total_invocations := total_invocations d;
               tool_stats := tool_stats d;
               invocations := skipn (Nat.max 1 (length (invocations d) / 4))
                                    (invocations d) |}
            maxSizeBytes
     else d) /\
  (stringify_length (trimInvocationsForSize d maxSizeBytes) <= maxSizeBytes \/
   invocations (trimInvocationsForSize d maxSizeBytes) = []) /\
  tool_stats (trimInvocationsForSize d maxSizeBytes) = tool_stats d /\
  total_invocations (trimInvocationsForSize d maxSizeBytes) = total_invocations d.
Proof.
  pose proof (trim_exec_result maxSizeBytes d _
                (trimInvocationsForSize_exec maxSizeBytes d))
    as (Hc & _ & _ & _ & Ht & Hs & _).
  split_and!; [| | exact Hs | exact Ht].
  - apply trimInvocationsForSize_unfold.
  - destruct (trim_cond maxSizeBytes (trimInvocationsForSize d maxSizeBytes))
      eqn:E; [discriminate|].
    rewrite trim_cond_unfold in E.
    apply andb_false_iff in E as [E|E]; apply bool_decide_eq_false in E.
    + left. lia.
    + right. apply length_zero_iff_nil. lia.
Qed.

(** ** C9: the trim loop terminates for every document and every maximum
    (0 and negative ones included).  Each iteration removes at least one
    invocation, so the length strictly decreases while invocations remain,
    and the [while] loop, run without any budget, reaches its exit from
    every start, with the result [trimInvocationsForSize] returns. *)
Theorem trim_terminates (d : MetricsData) (maxSizeBytes : Z) :
  (1 <= removeCount d)%nat /\
  (invocations d = [] \/
   (length (invocations (trim_body d)) < length (invocations d))%nat) /\
  trim_exec maxSizeBytes d (trimInvocationsForSize d maxSizeBytes).
Proof.
  split_and!.
  - apply removeCount_pos.
  - destruct (invocations d) as [|x l] eqn:E; [by left|right].
    rewrite <- E. apply trim_body_shorter. rewrite E. simpl. lia.
  - apply trimInvocationsForSize_exec.
Qed.

End TrimProofs.

(* ===================================================================== *)
(** ** Tool statistics *)
(* ===================================================================== *)

Lemma math_round_div_rounds (p q : Z) :
  0 < q -> rounds_to p q (math_round_div p q).
Proof.
  intros Hq. unfold rounds_to, math_round_div.
  pose proof (Z.div_mod (2 * p + q) (2 * q) ltac:(lia)) as Hdm.
  pose proof (Z.mod_pos_bound (2 * p + q) (2 * q) ltac:(lia)) as Hb.
  lia.
Qed.

Lemma math_round_div_1 (p : Z) : math_round_div p 1 = p.
Proof.
  unfold math_round_div. symmetry. apply Z.div_unique with 1; lia.
Qed.

Lemma updateToolStats_other (inv : ToolInvocation) (m : gmap string ToolStats)
    (k : string) :
  tool inv <> k -> updateToolStats inv m !! k = m !! k.
Proof.
  intros Hne. unfold updateToolStats.
  destruct (m !! tool inv); by rewrite lookup_insert_ne.
Qed.

Lemma updateToolStats_ok (inv : ToolInvocation) (m : gmap string ToolStats) :
  map_Forall (fun _ st => stats_ok st) m ->
  map_Forall (fun _ st => stats_ok st) (updateToolStats inv m).
Proof.
  intros Hall k st Hk.
  destruct (decide (tool inv = k)) as [<-|Hne].
  2:{ rewrite updateToolStats_other in Hk by done. by eapply Hall. }
  unfold updateToolStats in Hk.
  destruct (m !! tool inv) as [ex|] eqn:Ex; rewrite lookup_insert_eq in Hk;
    injection Hk as <-.
  - destruct (Hall _ _ Ex) as (Hs & He & Hc & Hp & _).
    unfold stats_ok; simpl.
    split_and!; try (destruct (success inv); simpl; lia); try done.
    apply math_round_div_rounds. lia.
  - unfold stats_ok; simpl.
    split_and!; try (destruct (success inv); simpl; lia).
    + by rewrite math_round_div_1.
    + unfold rounds_to. lia.
Qed.

Section RunProofs.

Variable stringify_length : MetricsData -> Z.

Lemma mc_run_cons (c : MetricsCollector) (e : mc_event) (es : list mc_event) :
  mc_run stringify_length c (e :: es) =
  mc_run stringify_length (mc_step stringify_length c e) es.
Proof. reflexivity. Qed.

Lemma persistToDisk_tool_stats (c : MetricsCollector) :
  tool_stats (mc_data (persistToDisk stringify_length c)) = tool_stats (mc_data c) /\
  mc_initialized (persistToDisk stringify_length c) = mc_initialized c.
Proof.
  unfold persistToDisk. destruct (mc_writeQueue c); [done|]. simpl.
  split; [|done].
  by pose proof (trim_exec_result stringify_length _ _ _
                   (trimInvocationsForSize_exec stringify_length
                      (mc_maxSizeBytes c) (mc_data c)))
    as (_ & _ & _ & _ & _ & -> & _).
Qed.

(** On an initialized collector, the statistics after a run are those of
    the recorded invocations folded into the initial ones: flushes (and the
    trims they perform) do not take part. *)
Lemma mc_run_tool_stats (c : MetricsCollector) (es : list mc_event) :
  mc_initialized c = true ->
  mc_initialized (mc_run stringify_length c es) = true /\
  tool_stats (mc_data (mc_run stringify_length c es)) =
    foldl (fun m inv => updateToolStats inv m) (tool_stats (mc_data c))
      (recorded es).
Proof.
  revert c. induction es as [|e es IH]; intros c Hi; [done|].
  rewrite mc_run_cons. destruct e as [now inv|]; simpl.
  - unfold record. rewrite Hi. simpl. apply IH. done.
  - destruct (persistToDisk_tool_stats c) as [Hs Hi'].
    destruct (IH (persistToDisk stringify_length c)) as [Hi'' Hs'];
      [by rewrite Hi'|].
    split; [done|]. by rewrite Hs', Hs.
Qed.

Lemma mc_run_uninitialized (c : MetricsCollector) (es : list mc_event) :
  mc_initialized c = false ->
  tool_stats (mc_data (mc_run stringify_length c es)) = tool_stats (mc_data c).
Proof.
  revert c. induction es as [|e es IH]; intros c Hi; [done|].
  rewrite mc_run_cons. destruct e as [now inv|]; simpl.
  - unfold record. rewrite Hi. simpl. by apply IH.
  - destruct (persistToDisk_tool_stats c) as [Hs Hi'].
    rewrite IH by (by rewrite Hi'). done.
Qed.

End RunProofs.

Lemma sum_durations_app (l1 l2 : list ToolInvocation) :
  sum_durations (l1 ++ l2) = sum_durations l1 + sum_durations l2.
Proof. induction l1 as [|x l1 IH]; simpl; lia. Qed.

Lemma updateToolStats_new (inv : ToolInvocation) (m : gmap string ToolStats) :
  m !! tool inv = None ->
  updateToolStats inv m !! tool inv =
    Some {| call_count := 1; total_duration_ms := duration_ms inv;
            avg_duration_ms := duration_ms inv;
            success_count := if success inv then 1 else 0;
            error_count := if success inv then 0 else 1;
            last_used := timestamp inv |}.
Proof. intros H. unfold updateToolStats. rewrite H. apply lookup_insert_eq. Qed.

Lemma updateToolStats_existing (inv : ToolInvocation) (m : gmap string ToolStats)
    (ex : ToolStats) :
  m !! tool inv = Some ex ->
  exists st, updateToolStats inv m !! tool inv = Some st /\
    call_count st = call_count ex + 1 /\
    total_duration_ms st = total_duration_ms ex + duration_ms inv /\
    avg_duration_ms st =
      math_round_div (total_duration_ms ex + duration_ms inv) (call_count ex + 1).
Proof.
  intros H. unfold updateToolStats. rewrite H, lookup_insert_eq. by eexists.
Qed.

(** The entry of one tool name after folding a list of invocations into a
    map without that name. *)
Lemma fold_stats_name (name : string) (l : list ToolInvocation)
    (m : gmap string ToolStats) :
  m !! name = None ->
  let invs := filter (fun i => tool i = name) l in
  let r := foldl (fun m inv => updateToolStats inv m) m l in
  (invs = [] /\ r !! name = None) \/
  (exists st, r !! name = Some st /\
     call_count st = Z.of_nat (length invs) /\
     total_duration_ms st = sum_durations invs /\
     avg_duration_ms st = math_round_div (sum_durations invs) (Z.of_nat (length invs))).
Proof.
  intros Hm. induction l as [|x l IH] using rev_ind; simpl; [by left|].
  rewrite foldl_app, filter_app. simpl.
  set (r := foldl (fun m inv => updateToolStats inv m) m l) in *.
  set (invs := filter (fun i => tool i = name) l) in *.
  destruct (decide (tool x = name)) as [Hx|Hx].
  - rewrite filter_cons_True by done. rewrite filter_nil. right.
    rewrite length_app, sum_durations_app. simpl.
    destruct IH as [[Hi Hr]|(st & Hr & Hc & Ht & Ha)].
    + rewrite Hi. rewrite <- Hx in Hr |- *.
      rewrite (updateToolStats_new x r Hr). eexists; split_and!; [done|done|..];
        simpl; [lia|]. by rewrite math_round_div_1, Z.add_0_r.
    + rewrite <- Hx in Hr |- *.
      destruct (updateToolStats_existing x r st Hr) as (st' & -> & Hc' & Ht' & Ha').
      exists st'. split_and!; [done|lia|lia|].
      rewrite Ha', Ht, Hc. f_equal; lia.
  - rewrite filter_cons_False by done. rewrite filter_nil, app_nil_r.
    rewrite updateToolStats_other by done. exact IH.
Qed.

(** ** C1: for the invocations of one tool name recorded after
    initialization (interleaved with any other records and with any number
    of flushes, each of which trims the invocation sequence), the entry of
    that name has [call_count = N], [total_duration_ms = d1 + ... + dn] and
    [avg_duration_ms = Math.round((d1 + ... + dn) / N)], the nearest integer
    (halves upward), not the truncated quotient; a further trim at any
    maximum leaves the entry as it is. *)
Theorem tool_stats_aggregate (stringify_length : MetricsData -> Z)
    (c : MetricsCollector) (es : list mc_event) (name : string) :
  mc_initialized c = true ->
  tool_stats (mc_data c) !! name = None ->
  filter (fun i => tool i = name) (recorded es) <> [] ->
  let invs := filter (fun i => tool i = name) (recorded es) in
  let N := Z.of_nat (length invs) in
  let d := mc_data (mc_run stringify_length c es) in
  exists st, tool_stats d !! name = Some st /\
    call_count st = N /\
    total_duration_ms st = sum_durations invs /\
    avg_duration_ms st = math_round_div (sum_durations invs) N /\
    rounds_to (sum_durations invs) N (avg_duration_ms st) /\
    (forall maxSizeBytes : Z,
       tool_stats (trimInvocationsForSize stringify_length d maxSizeBytes)
         !! name = Some st).
Proof.
  intros Hi Hn Hne invs N d.
  destruct (mc_run_tool_stats stringify_length c es Hi) as [_ Hs].
  destruct (fold_stats_name name (recorded es) _ Hn) as [[Hnil _]|(st & Hr & Hc & Ht & Ha)];
    [done|].
  exists st. unfold d. rewrite Hs. split_and!; try done.
  - rewrite Ha. apply math_round_div_rounds. unfold N, invs.
    destruct (filter _ (recorded es)); [done|simpl; lia].
  - intros maxSizeBytes.
    pose proof (trim_exec_result stringify_length _ _ _
                  (trimInvocationsForSize_exec stringify_length maxSizeBytes
                     (mc_data (mc_run stringify_length c es))))
      as (_ & _ & _ & _ & _ & -> & _).
    by rewrite Hs.
Qed.

(** ** C6: every entry of [tool_stats] keeps
    [call_count = success_count + error_count] (with both counts
    non-negative and [call_count > 0]) and
    [avg_duration_ms = Math.round(total_duration_ms / call_count)], after
    every update, whether it creates the entry or updates it: any run of
    records and flushes from statistics satisfying this (e.g. the empty
    statistics of a fresh file) ends in statistics satisfying it. *)
Theorem stats_invariant (stringify_length : MetricsData -> Z)
    (c : MetricsCollector) (es : list mc_event) :
  map_Forall (fun _ st => stats_ok st) (tool_stats (mc_data c)) ->
  map_Forall (fun _ st => stats_ok st)
    (tool_stats (mc_data (mc_run stringify_length c es))).
Proof.
  intros Hok. destruct (mc_initialized c) eqn:Hi.
  - destruct (mc_run_tool_stats stringify_length c es Hi) as [_ ->].
    generalize (recorded es). intros l. revert Hok.
    generalize (tool_stats (mc_data c)). induction l as [|x l IH]; intros m Hok;
      [done|]. simpl. apply IH. by apply updateToolStats_ok.
  - by rewrite mc_run_uninitialized.
Qed.

(** ** C7: before [initialize()] has completed, [record] changes nothing in
    the collector (no append, no counter, no statistics, no queued write)
    and only prints a message, whereas [report] throws
    [Error("IssueCollector not initialized")], so no collector state is
    produced and the caller's collector is left as it was. *)
Theorem uninitialized_use (now : string) (inv : ToolInvocation)
    (c : MetricsCollector) (issueId created updated : string)
    (params : ReportParams) (ic : IssueCollector) :
  mc_initialized c = false ->
  ic_initialized ic = false ->
  record now inv c = (c, ["MetricsCollector not initialized, skipping record"]) /\
  report issueId created updated params ic = inl "IssueCollector not initialized".
Proof. intros Hc Hic. unfold record, report. by rewrite Hc, Hic. Qed.

Lemma trim_issues (x : IssueReport) (old : list IssueReport) :
  (if bool_decide (MAX_ISSUES < length (x :: old))%nat
   then take MAX_ISSUES (x :: old) else x :: old) = x :: take 99 old.
Proof.
  unfold MAX_ISSUES. case_bool_decide as Hlt; [done|].
  simpl in Hlt. rewrite take_ge by lia. done.
Qed.

(** ** C3: on an initialized issue collector, [report] always succeeds; the
    new issue is put first, the list keeps at most 100 issues, and when it
    already held 100 exactly its last (oldest) issue is dropped, while
    [total_issues] still grows by one. *)
Theorem report_bounded (issueId created updated : string) (params : ReportParams)
    (c : IssueCollector) :
  ic_initialized c = true ->
  exists issue c',
    report issueId created updated params c = inr (issue, c') /\
    id issue = issueId /\
    (length (issues (ic_data c')) <= 100)%nat /\
    issues (ic_data c') = issue :: take 99 (issues (ic_data c)) /\
    total_issues (ic_data c') = total_issues (ic_data c) + 1 /\
    (length (issues (ic_data c)) = 100%nat ->
     exists kept oldest, issues (ic_data c) = kept ++ [oldest] /\
                         issues (ic_data c') = issue :: kept).
Proof.
  intros Hi. unfold report. rewrite Hi. cbn [negb].
  rewrite trim_issues.
  eexists _, _. split; [reflexivity|]. cbn.
  set (old := issues (ic_data c)).
  split_and!; [done| |done|done|].
  - rewrite length_take. lia.
  - intros Hlen.
    assert (Hd : length (drop 99 old) = 1%nat) by (rewrite length_drop; lia).
    destruct (drop 99 old) as [|o [|o' r]] eqn:E; simpl in Hd; try lia.
    exists (take 99 old), o. split; [|done].
    rewrite <- (take_drop 99 old) at 1. by rewrite E.
Qed.

(* ===================================================================== *)
(** ** Plain objects *)
(* ===================================================================== *)

Lemma plain_set_string_lookup {A} (o : gmap string A) (k k' : string) (v : A) :
  k' <> "__proto__" ->
  plain_set_string o k v !! k' = if decide (k' = k) then Some v else o !! k'.
Proof.
  intros Hk'. unfold plain_set_string.
  destruct (decide (k' = k)) as [->|Hne].
  - destruct (o !! k); [apply lookup_insert_eq|].
    rewrite bool_decide_eq_false_2 by done. apply lookup_insert_eq.
  - destruct (o !! k); [rewrite lookup_insert_ne; [done|congruence]|].
    destruct (bool_decide _); [done|]. rewrite lookup_insert_ne; [done|congruence].
Qed.

Lemma plain_set_string_proto {A} (o : gmap string A) (k : string) (v : A) :
  o !! "__proto__" = None -> plain_set_string o k v !! "__proto__" = None.
Proof.
  intros H. unfold plain_set_string.
  destruct (decide (k = "__proto__")) as [->|Hne].
  - rewrite H, bool_decide_eq_true_2 by done. exact H.
  - destruct (o !! k).
    + rewrite lookup_insert_ne; [exact H|congruence].
    + rewrite bool_decide_eq_false_2 by done.
      rewrite lookup_insert_ne; [exact H|congruence].
Qed.

Lemma plain_set_string_has {A} (o : gmap string A) (k : string) (v : A) :
  plain_has (plain_set_string o k v) k = true.
Proof.
  unfold plain_set_string, plain_has.
  destruct (o !! k) eqn:E; [by rewrite lookup_insert_eq|].
  destruct (decide (k = "__proto__")) as [->|Hne].
  - rewrite bool_decide_eq_true_2 by done. by rewrite E.
  - rewrite bool_decide_eq_false_2 by done. by rewrite lookup_insert_eq.
Qed.

Lemma delete_plain_set_string {A} (o : gmap string A) (k : string) (v : A) :
  delete k (plain_set_string o k v) = delete k o.
Proof.
  unfold plain_set_string.
  destruct (o !! k); [apply delete_insert_eq|].
  destruct (bool_decide _); [done|apply delete_insert_eq].
Qed.

Lemma styles_set_own (o : StylesObject) (k : string) (tgs : list string) :
  k <> "__proto__" ->
  styles_own (styles_set o k tgs) = <[k := tgs]> (styles_own o).
Proof.
  intros Hk. unfold styles_set. destruct (styles_own o !! k); [done|].
  by rewrite bool_decide_eq_false_2.
Qed.

Lemma styles_has_plain (o : StylesObject) (k : string) :
  styles_proto o = None -> object_prototype_member k = None ->
  styles_has o k = bool_decide (is_Some (styles_own o !! k)).
Proof.
  intros Hp Hm. unfold styles_has, plain_has. rewrite Hp, lookup_empty, Hm.
  destruct (styles_own o !! k).
  - rewrite bool_decide_eq_true_2; [done|by eexists].
  - rewrite bool_decide_eq_false_2; [done|by intros [? ?]].
Qed.

(* ===================================================================== *)
(** ** Merging the two scopes *)
(* ===================================================================== *)

Lemma mark_sources_lookup (src : Scope) (keys : list string)
    (m : gmap string Scope) (k : string) :
  k <> "__proto__" ->
  mark_sources src keys m !! k =
  if decide (k ∈ keys) then Some src else m !! k.
Proof.
  intros Hk. unfold mark_sources. revert m.
  induction keys as [|k0 keys IH]; intros m; cbn [foldl].
  - rewrite decide_False; [done|]. set_solver.
  - rewrite IH. destruct (decide (k ∈ keys)) as [Hin|Hin].
    + rewrite decide_True; [done|]. set_solver.
    + rewrite plain_set_string_lookup by done.
      destruct (decide (k = k0)) as [->|Hne].
      * rewrite decide_True by set_solver. done.
      * rewrite decide_False by set_solver. done.
Qed.

Lemma mark_sources_proto (src : Scope) (keys : list string)
    (m : gmap string Scope) :
  m !! "__proto__" = None -> mark_sources src keys m !! "__proto__" = None.
Proof.
  unfold mark_sources. revert m.
  induction keys as [|k0 keys IH]; intros m Hm; cbn [foldl]; [done|].
  apply IH. by apply plain_set_string_proto.
Qed.

Lemma elem_of_object_keys {A} (m : gmap string A) (k : string) :
  k ∈ object_keys m <-> is_Some (m !! k).
Proof.
  unfold object_keys. rewrite list_elem_of_fmap. split.
  - intros ([k' v] & -> & Hkv). apply elem_of_map_to_list in Hkv. by exists v.
  - intros [v Hv]. exists (k, v). split; [done|]. by apply elem_of_map_to_list.
Qed.

Lemma sources_lookup {A} (g p : gmap string A) (k : string) :
  k <> "__proto__" ->
  mark_sources Project (object_keys p) (mark_sources Global (object_keys g) ∅) !! k =
  match p !! k, g !! k with
  | Some _, _ => Some Project
  | None, Some _ => Some Global
  | None, None => None
  end.
Proof.
  intros Hk. rewrite !mark_sources_lookup, lookup_empty by done.
  destruct (p !! k) eqn:Ep.
  - rewrite decide_True; [done|]. apply elem_of_object_keys. by eexists.
  - rewrite decide_False by (rewrite elem_of_object_keys, Ep; by intros []).
    destruct (g !! k) eqn:Eg.
    + rewrite decide_True; [done|]. apply elem_of_object_keys. by eexists.
    + rewrite decide_False; [done|]. rewrite elem_of_object_keys, Eg. by intros [].
Qed.

Lemma sources_proto {A} (g p : gmap string A) :
  mark_sources Project (object_keys p) (mark_sources Global (object_keys g) ∅)
    !! "__proto__" = None.
Proof. by apply mark_sources_proto, mark_sources_proto, lookup_empty. Qed.

(** ** C5 (divergence): the merge copies an own key ["__proto__"] of the
    scopes' [styles] into the merged styles (a spread copies own
    properties), and the project's value wins there; but
    [sources.styles["__proto__"] = "project"] runs the inherited
    [__proto__] setter, which ignores a string, so no source is recorded
    and [_sources.styles["__proto__"]] reads [Object.prototype] instead of
    ["project"]. *)
Theorem merge_proto_key_source :
  let st := {| global_file := Some {| file_styles := {[ "__proto__" := ["tag1"] ]};
                                      file_folders := ∅ |};
               project_file := Some {| file_styles := {[ "__proto__" := ["tag2"] ]};
                                       file_folders := ∅ |};
               default_config := emptyStyleConfig |} in
  let mc := getMergedConfigStore st in
  plain_get (merged_styles mc) "__proto__" = Own ["tag2"] /\
  sources_styles mc !! "__proto__" = None /\
  plain_get (sources_styles mc) "__proto__" = Inh PObjectPrototype.
Proof. vm_compute. split_and!; reflexivity. Qed.

(* ===================================================================== *)
(** ** Folder resolution *)
(* ===================================================================== *)

Lemma resolve_at_path (config : MergedStyleConfig) (q : string) (m : StyleMatch) :
  resolve_at config q = Some m -> matchedPath m = q.
Proof.
  unfold resolve_at. destruct (plain_has _ q); [|done].
  destruct (truthy _); [|done]. by intros [= <-].
Qed.

Lemma strip_trailing_slashes_spec (s : string) :
  (exists k, s = strip_trailing_slashes s +:+ slashes k) /\
  (forall q, strip_trailing_slashes s <> q +:+ String "/"%char EmptyString).
Proof.
  induction s as [|c r [[k Hk] Hend]]; simpl.
  - split; [by exists 0%nat|]. intros [|? ?]; discriminate.
  - destruct (bool_decide (c = "/"%char)) eqn:Ec;
      destruct (bool_decide (strip_trailing_slashes r = EmptyString)) eqn:Er;
      simpl.
    + apply bool_decide_eq_true in Ec, Er. subst c.
      split; [|intros [|? ?]; discriminate].
      exists (S k). simpl. rewrite Hk at 1. by rewrite Er.
    + split; [exists k; by rewrite Hk at 1|].
      intros [|c' q] E; simpl in E; injection E as -> E.
      * apply bool_decide_eq_false in Er. congruence.
      * by apply (Hend q).
    + split; [exists k; by rewrite Hk at 1|].
      intros [|c' q] E; simpl in E; injection E as -> E.
      * apply bool_decide_eq_false in Ec. congruence.
      * by apply (Hend q).
    + split; [exists k; by rewrite Hk at 1|].
      intros [|c' q] E; simpl in E; injection E as -> E.
      * apply bool_decide_eq_false in Ec. congruence.
      * by apply (Hend q).
Qed.

Lemma is_ancestor_slash_prefixes (q s : string) :
  is_ancestor q s <-> In q (slash_prefixes s).
Proof.
  revert q. induction s as [|c r IH]; intros q; unfold is_ancestor in *; simpl.
  - split; [|done]. intros [r' E]. destruct q; discriminate.
  - rewrite in_app_iff, in_map_iff. split.
    + intros [r' E]. destruct q as [|c' q']; simpl in E; injection E as -> E.
      * left. rewrite bool_decide_eq_true_2 by done. by left.
      * right. exists q'. split; [done|]. apply IH. by exists r'.
    + intros [Hin|(q' & <- & Hin)].
      * destruct (bool_decide (c = "/"%char)) eqn:Ec; [|done].
        apply bool_decide_eq_true in Ec. subst c.
        destruct Hin as [<-|[]]. by exists r.
      * apply IH in Hin as [r' ->]. by exists r'.
Qed.

Lemma split_slash_nonempty (s : string) : split_slash s <> [].
Proof.
  induction s as [|c r IH]; simpl; [done|].
  destruct (bool_decide _); [done|]. by destruct (split_slash r).
Qed.

Lemma join_slash_cons_char (c : ascii) (h : string) (l : list string) :
  join_slash (String c h :: l) = String c (join_slash (h :: l)).
Proof. by destruct l. Qed.

Lemma join_slash_cons_empty (l : list string) :
  l <> [] -> join_slash (EmptyString :: l) = String "/"%char (join_slash l).
Proof. by destruct l. Qed.

(** The paths the parent loop looks at, shortest first, are the prefixes of
    the path that stop just before a slash. *)
Lemma parent_paths_slash_prefixes (s : string) :
  map (fun j => join_slash (take (S j) (split_slash s)))
      (seq 0 (length (split_slash s) - 1)) = slash_prefixes s.
Proof.
  induction s as [|c r IH]; [done|]. cbn [split_slash slash_prefixes].
  pose proof (split_slash_nonempty r) as Hne.
  destruct (bool_decide (c = "/"%char)) eqn:Ec.
  - apply bool_decide_eq_true in Ec. subst c.
    destruct (split_slash r) as [|h t] eqn:Es; [done|].
    cbn [length] in *. replace (S (S (length t)) - 1)%nat with (S (length t)) by lia.
    rewrite <- cons_seq, <- seq_shift. cbn [map]. rewrite map_map.
    cbn [app]. f_equal. rewrite <- IH.
    replace (S (length t) - 1)%nat with (length t) by lia.
    rewrite map_map. apply map_ext. intros j. cbn [take].
    rewrite join_slash_cons_empty; [done|]. destruct j; simpl; done.
  - destruct (split_slash r) as [|h t] eqn:Es; [done|].
    cbn [app]. rewrite <- IH. cbn [length]. rewrite map_map.
    apply map_ext. intros j. cbn [take]. apply join_slash_cons_char.
Qed.

Lemma parent_walk_find_first (config : MergedStyleConfig) (parts : list string)
    (i : nat) :
  parent_walk config parts i =
  find_first config (rev (map (fun j => join_slash (take (S j) parts)) (seq 0 i))).
Proof.
  induction i as [|i IH]; [done|].
  rewrite seq_S, map_app, rev_app_distr. simpl.
  destruct (resolve_at config (join_slash (take (S i) parts))) as [m|]; [done|].
  exact IH.
Qed.

Lemma walk_from_normalized (config : MergedStyleConfig) (n : string) :
  (let parts := split_slash n in parent_walk config parts (length parts - 1)) =
  find_first config (rev (slash_prefixes n)).
Proof. simpl. by rewrite parent_walk_find_first, parent_paths_slash_prefixes. Qed.

Lemma shorter_first_app_inv (l : list string) (x : string) :
  shorter_first (l ++ [x]) ->
  Forall (fun q => (String.length q < String.length x)%nat) l /\ shorter_first l.
Proof.
  induction l as [|q l IH]; simpl; [done|].
  intros [Hq Hl]. apply Forall_app in Hq as [Hq Hx].
  apply IH in Hl as [Hl1 Hl2]. inversion Hx; subst.
  split; [by constructor|done].
Qed.

Lemma shorter_first_map_char (c : ascii) (l : list string) :
  shorter_first l -> shorter_first (map (String c) l).
Proof.
  induction l as [|q l IH]; simpl; [done|]. intros [Hq Hl]. split; [|auto].
  apply List.Forall_forall. intros y Hy. apply in_map_iff in Hy as (q' & <- & Hq').
  rewrite List.Forall_forall in Hq. simpl. specialize (Hq q' Hq'). lia.
Qed.

Lemma slash_prefixes_sorted (s : string) : shorter_first (slash_prefixes s).
Proof.
  induction s as [|c r IH]; simpl; [done|].
  destruct (bool_decide _); simpl; [|by apply shorter_first_map_char].
  split; [|by apply shorter_first_map_char].
  apply List.Forall_forall. intros y Hy. apply in_map_iff in Hy as (q' & <- & _).
  simpl. lia.
Qed.

(** Looking at a shortest-first list from its end finds its longest path
    that resolves. *)
Lemma find_first_rev_Some (config : MergedStyleConfig) (l : list string)
    (m : StyleMatch) :
  shorter_first l ->
  find_first config (rev l) = Some m <->
  In (matchedPath m) l /\ resolve_at config (matchedPath m) = Some m /\
  (forall q, In q l -> (String.length (matchedPath m) < String.length q)%nat ->
             resolve_at config q = None).
Proof.
  induction l as [|x l IH] using rev_ind; intros Hs; simpl; [naive_solver|].
  apply shorter_first_app_inv in Hs as [Hlt Hs]. rewrite List.Forall_forall in Hlt.
  rewrite rev_app_distr. simpl.
  destruct (resolve_at config x) as [m'|] eqn:Ex.
  - pose proof (resolve_at_path _ _ _ Ex) as Hx.
    split.
    + intros [= <-]. rewrite Hx. split_and!; [apply in_app_iff; right; by left|done|].
      intros q Hq Hlen. apply in_app_iff in Hq as [Hq|[<-|[]]].
      * specialize (Hlt q Hq). lia.
      * lia.
    + intros (Hin & Hr & Hmax). apply in_app_iff in Hin as [Hin|[Hin|[]]].
      * specialize (Hlt _ Hin). rewrite (Hmax x) in Ex; [done| |done].
        apply in_app_iff. right. by left.
      * rewrite Hin in Ex. congruence.
  - rewrite IH by done. split.
    + intros (Hin & Hr & Hmax). split_and!; [apply in_app_iff; by left|done|].
      intros q Hq Hlen. apply in_app_iff in Hq as [Hq|[<-|[]]]; [by apply Hmax|done].
    + intros (Hin & Hr & Hmax). apply in_app_iff in Hin as [Hin|[Hin|[]]].
      * split_and!; [done|done|]. intros q Hq. apply Hmax. apply in_app_iff. by left.
      * rewrite Hin in Ex. congruence.
Qed.

Lemma find_first_None (config : MergedStyleConfig) (l : list string) :
  find_first config l = None <-> forall q, In q l -> resolve_at config q = None.
Proof.
  induction l as [|x l IH]; simpl; [naive_solver|].
  destruct (resolve_at config x) as [m|] eqn:Ex.
  - split; [done|]. intros H. rewrite H in Ex; [done|]. by left.
  - rewrite IH. split.
    + intros H q [<-|Hq]; auto.
    + auto.
Qed.

(** The texts of [inherited_key_texts] are no members of
    [Object.prototype]. *)
Lemma inherited_key_texts_plain (t : string) :
  t ∈ inherited_key_texts -> object_prototype_member t = None.
Proof.
  assert (H : forallb (fun t => match object_prototype_member t with
                                | None => true | Some _ => false end)
                      inherited_key_texts = true) by (vm_compute; reflexivity).
  intros Ht. rewrite forallb_forall in H.
  specialize (H t (proj1 (list_elem_of_In _ _) Ht)).
  by destruct (object_prototype_member t).
Qed.

Lemma property_key_inherited (k : string) (m : ProtoMember) :
  object_prototype_member k = Some m -> property_key (Inh m) ∈ inherited_key_texts.
Proof.
  intros Hk. unfold inherited_key_texts. apply list_elem_of_fmap.
  exists k. split.
  - unfold plain_get. by rewrite lookup_empty, Hk.
  - unfold object_prototype_member in Hk.
    destruct (decide (k = "__proto__")) as [->|Hp]; [left|].
    rewrite bool_decide_eq_false_2 in Hk by done.
    destruct (decide (k ∈ object_prototype_methods)) as [Hin|Hin]; [by right|].
    by rewrite bool_decide_eq_false_2 in Hk.
Qed.

Lemma ordinary_names_spec (config : MergedStyleConfig) :
  ordinary_names config = true ->
  (forall q sn, merged_folders config !! q = Some sn ->
     object_prototype_member sn = None \/ is_Some (merged_styles config !! sn)) /\
  (forall k, k ∈ inherited_key_texts -> merged_styles config !! k = None).
Proof.
  unfold ordinary_names. intros [H1 H2]%andb_true_iff.
  rewrite forallb_forall in H1, H2. split.
  - intros q sn Hq.
    assert (Hin : In (q, sn) (map_to_list (merged_folders config))).
    { apply list_elem_of_In. by apply elem_of_map_to_list. }
    specialize (H1 _ Hin). cbn in H1.
    apply orb_true_iff in H1 as [H1|H1]; apply bool_decide_eq_true in H1; auto.
  - intros k Hk. destruct (merged_styles config !! k) eqn:E; [|done].
    exfalso.
    assert (Hin : In k (object_keys (merged_styles config))).
    { apply list_elem_of_In, elem_of_object_keys. by rewrite E. }
    specialize (H2 _ Hin). rewrite bool_decide_eq_true_2 in H2 by done.
    discriminate.
Qed.

(** With ordinary names, [resolve_at] finds exactly the own associations
    that name a style with an own entry. *)
Lemma resolve_at_ordinary (config : MergedStyleConfig) (q : string) :
  ordinary_names config = true ->
  match resolve_at config q with
  | Some m => matchedPath m = q /\
              exists sn tg, style m = Own sn /\ tags m = Own tg /\ resolves config q sn tg
  | None => forall sn tg, ~ resolves config q sn tg
  end.
Proof.
  intros Hord. destruct (ordinary_names_spec config Hord) as [H1 H2].
  unfold resolve_at, resolves, plain_has.
  destruct (merged_folders config !! q) as [sn|] eqn:Eq.
  - unfold plain_get. rewrite Eq. cbn [property_key].
    destruct (merged_styles config !! sn) as [tg|] eqn:Es.
    + cbn. split; [done|]. exists sn, tg. done.
    + destruct (H1 q sn Eq) as [Hm|[? Hs]]; [|congruence].
      rewrite Hm. cbn. intros sn' tg [[= <-] Hs]. congruence.
  - destruct (object_prototype_member q) as [m|] eqn:Em.
    + unfold plain_get. rewrite Eq, Em.
      pose proof (property_key_inherited q m Em) as Hk.
      rewrite (H2 _ Hk), (inherited_key_texts_plain _ Hk).
      cbn. intros sn tg [? _]. congruence.
    + intros sn tg [? _]. congruence.
Qed.

Lemma resolve_at_Some_ordinary (config : MergedStyleConfig) (q : string)
    (m : StyleMatch) :
  ordinary_names config = true ->
  resolve_at config q = Some m <->
  matchedPath m = q /\
  exists sn tg, style m = Own sn /\ tags m = Own tg /\ resolves config q sn tg.
Proof.
  intros Hord. pose proof (resolve_at_ordinary config q Hord) as H.
  destruct (resolve_at config q) as [m'|].
  - destruct H as (Hp & sn' & tg' & Hs & Ht & Hf' & Hr').
    split; [intros [= <-]; split; [done|]; by exists sn', tg'|].
    intros (Hp2 & sn & tg & Hs2 & Ht2 & Hf & Hr).
    rewrite Hf' in Hf. injection Hf as <-. rewrite Hr' in Hr. injection Hr as <-.
    destruct m, m'. cbn in *. congruence.
  - split; [done|]. intros (_ & sn & tg & _ & _ & Hr). by destruct (H sn tg).
Qed.

Lemma resolve_at_None_ordinary (config : MergedStyleConfig) (q : string) :
  ordinary_names config = true ->
  resolve_at config q = None <-> forall sn tg, ~ resolves config q sn tg.
Proof.
  intros Hord. pose proof (resolve_at_ordinary config q Hord) as H.
  destruct (resolve_at config q) as [m|]; [|done].
  destruct H as (_ & sn & tg & _ & _ & Hr). split; [done|].
  intros Hn. by destruct (Hn sn tg).
Qed.

(** ** C4 (divergence): a style name that is a member of [Object.prototype]
    is taken for an existing style.  [set_folder_style] accepts the name
    ["toString"] ([getStyleTags("toString")] returns the inherited
    function, which is truthy), so the tools can build [/a = S1] and
    [/a/b = toString], where [toString] has no entry in the merged styles.
    Resolving [/a/b/c] should give [S1] at [/a], the nearest ancestor whose
    association names an existing style; the parent walk stops at [/a/b]
    instead, because [config.styles["toString"]] reads the inherited
    method, and returns it as the tags. *)
Theorem getStyleForFolder_inherited_name :
  let st0 := setFolderStyle "/a" "S1" Project
               (saveStyle "S1" ["tag1"] Project initialStyleStore) in
  let st := inherited_name_store "toString" in
  let mc := getMergedConfigStore st in
  getStyleTags st0 "toString" = Some (Inh (PMethod "toString")) /\
  merged_folders mc !! "/a" = Some "S1" /\
  merged_styles mc !! "S1" = Some ["tag1"] /\
  merged_folders mc !! "/a/b" = Some "toString" /\
  merged_styles mc !! "toString" = None /\
  getStyleForFolderStore st "/a/b/c" =
    Some {| style := Own "toString"; tags := Inh (PMethod "toString");
            matchedPath := "/a/b" |}.
Proof. vm_compute. split_and!; reflexivity. Qed.

(** ** C10 (divergence): an association at the path itself whose style
    name has no entry in the merged styles does not always fall through to
    the ancestors.  With [/a = S1] and [/a/b = constructor] ([constructor]
    has no entry; [set_folder_style] accepts it since
    [getStyleTags("constructor")] returns the inherited [Object] function),
    resolving [/a/b] should give [S1] at [/a]; it returns [constructor] at
    [/a/b] with the [Object] function as its tags. *)
Theorem getStyleForFolder_dangling_inherited :
  let st := inherited_name_store "constructor" in
  let mc := getMergedConfigStore st in
  getStyleTags (setFolderStyle "/a" "S1" Project
                  (saveStyle "S1" ["tag1"] Project initialStyleStore)) "constructor"
    = Some (Inh (PMethod "Object")) /\
  merged_folders mc !! "/a" = Some "S1" /\
  merged_styles mc !! "S1" = Some ["tag1"] /\
  merged_folders mc !! "/a/b" = Some "constructor" /\
  merged_styles mc !! "constructor" = None /\
  getStyleForFolderStore st "/a/b" =
    Some {| style := Own "constructor"; tags := Inh (PMethod "Object");
            matchedPath := "/a/b" |}.
Proof. vm_compute. split_and!; reflexivity. Qed.

(* ===================================================================== *)
(** ** Deleting a style *)
(* ===================================================================== *)

(** When the scope's file exists and the name is not a member of
    [Object.prototype], [deleteStyle] reports whether the file has the
    style, removes it and the folder associations of that scope naming it,
    and leaves the other scope's file and the default object alone. *)
Lemma deleteStyle_with_file (name : string) (scope : Scope) (st : StyleStore)
    (f : FileConfig) :
  scope_file scope st = Some f ->
  object_prototype_member name = None ->
  let '(found, st') := deleteStyle name scope st in
  found = bool_decide (is_Some (file_styles f !! name)) /\
  scope_file (other_scope scope) st' = scope_file (other_scope scope) st /\
  default_config st' = default_config st /\
  scope_file scope st' =
    if found then Some {| file_styles := delete name (file_styles f);
                          file_folders := filter (fun kv => kv.2 <> name)
                                                 (file_folders f) |}
    else Some f.
Proof.
  intros Hf Hm. unfold deleteStyle, readScope. rewrite Hf.
  cbn [parse_file styles].
  rewrite (styles_has_plain {| styles_own := file_styles f; styles_proto := None |}
             _ eq_refl Hm).
  cbn [styles_own].
  destruct (bool_decide (is_Some (file_styles f !! name))).
  - split_and!; try done; destruct scope; done.
  - split_and!; done.
Qed.

(** ** C8 (divergence): [readConfigFile] returns [{ ...DEFAULT_CONFIG }], a
    shallow copy, so every scope without a file works on the same [styles]
    and [folders] objects.  Start with no files, save style [x] globally
    (this also puts [x] into [DEFAULT_CONFIG.styles]), and let the global
    file disappear from disk: the global scope now reads [x = ["t"]].
    [deleteStyle("x", "project")] returns [true] and, by deleting from the
    shared object, also removes [x] from the global scope, which it should
    leave untouched. *)
Theorem deleteStyle_default_alias :
  let st := removeScopeFile Global (saveStyle "x" ["t"] Global initialStyleStore) in
  styles_own (styles (readScope Global st).1) !! "x" = Some ["t"] /\
  (deleteStyle "x" Project st).1 = true /\
  global_file (deleteStyle "x" Project st).2 = None /\
  styles_own (styles (readScope Global (deleteStyle "x" Project st).2).1) !! "x" = None.
Proof. vm_compute. split_and!; reflexivity. Qed.

(* ===================================================================== *)
(** ** Further properties of the style store and the ledgers *)
(* ===================================================================== *)

Lemma strip_trailing_slashes_noslash (s : string) :
  (forall q, s <> q +:+ String "/"%char EmptyString) ->
  strip_trailing_slashes s = s.
Proof.
  induction s as [|c r IH]; intros Hs; [done|]. simpl.
  destruct r as [|c' r'].
  - simpl. rewrite bool_decide_eq_false_2; [done|].
    intros ->. apply (Hs EmptyString). done.
  - rewrite IH.
    + rewrite (bool_decide_eq_false_2 (String c' r' = EmptyString)) by done.
      by rewrite andb_false_r.
    + intros q E. apply (Hs (String c q)). simpl. by rewrite E.
Qed.

(** X1: the path normalization of [setFolderStyle], [removeFolderStyle]
    and [getStyleForFolder] is idempotent: a normalized path is its own
    normal form. *)
Theorem strip_trailing_slashes_idempotent (s : string) :
  strip_trailing_slashes (strip_trailing_slashes s) = strip_trailing_slashes s.
Proof.
  apply strip_trailing_slashes_noslash. apply strip_trailing_slashes_spec.
Qed.

Lemma readScope_writeScope (scope : Scope) (config : StyleConfig) (st : StyleStore) :
  readScope scope (writeScope scope config st) =
  (parse_file (stringify_config config), false).
Proof. by destruct scope. Qed.

Lemma scope_file_writeScope_other (scope : Scope) (config : StyleConfig)
    (st : StyleStore) :
  scope_file (other_scope scope) (writeScope scope config st) =
  scope_file (other_scope scope) st.
Proof. by destruct scope. Qed.

Lemma scope_file_mutate (scope : Scope) (aliased : bool) (config : StyleConfig)
    (st : StyleStore) :
  scope_file scope (mutate aliased config st) = scope_file scope st.
Proof. by destruct aliased, scope. Qed.

Lemma readScope_fst_file (scope : Scope) (st : StyleStore) (f : FileConfig) :
  scope_file scope st = Some f -> (readScope scope st).1 = parse_file f.
Proof. unfold readScope. by intros ->. Qed.

Lemma getStyleTags_lookup (st : StyleStore) (name : string) :
  getStyleTags st name =
  match styles_own (styles (readScope Project st).1) !! name with
  | Some t => Some (Own t)
  | None =>
      match styles_own (styles (readScope Global st).1) !! name with
      | Some t => Some (Own t)
      | None => match object_prototype_member name with
                | Some m => Some (Inh m)
                | None => None
                end
      end
  end.
Proof.
  unfold getStyleTags, getMergedConfigStore, getMergedConfig, plain_get. cbn.
  rewrite lookup_union.
  destruct (styles_own (styles (readScope Project st).1) !! name),
           (styles_own (styles (readScope Global st).1) !! name); try done.
  cbn. by destruct (object_prototype_member name).
Qed.

(** X2: After [saveStyle(name, tags, "project")], [getStyleTags(name)]
    returns [tags], whatever the store was (files present or not), for
    every name but ["__proto__"]. *)
Theorem saveStyle_project_getStyleTags (name : string) (tgs : list string)
    (st : StyleStore) :
  name <> "__proto__" ->
  getStyleTags (saveStyle name tgs Project st) name = Some (Own tgs).
Proof.
  intros Hn. rewrite getStyleTags_lookup. unfold saveStyle.
  destruct (readScope Project st) as [config aliased].
  rewrite readScope_writeScope. cbn.
  rewrite styles_set_own by done. by rewrite lookup_insert_eq.
Qed.

(** X3: When a project file exists, [saveStyle(name, tags, "global")] makes
    [getStyleTags(name)] return [tags] unless the project file has its own
    style [name], which keeps taking precedence (for every name but
    ["__proto__"]). *)
Theorem saveStyle_global_getStyleTags (name : string) (tgs : list string)
    (st : StyleStore) (pf : FileConfig) :
  project_file st = Some pf ->
  name <> "__proto__" ->
  getStyleTags (saveStyle name tgs Global st) name =
  Some (Own (match file_styles pf !! name with
             | Some t => t
             | None => tgs
             end)).
Proof.
  intros Hp Hn. rewrite getStyleTags_lookup. unfold saveStyle.
  destruct (readScope Global st) as [config aliased].
  rewrite readScope_writeScope.
  rewrite (readScope_fst_file Project _ pf); last first.
  { change Project with (other_scope Global).
    rewrite scope_file_writeScope_other, scope_file_mutate. exact Hp. }
  cbn. destruct (file_styles pf !! name); [done|].
  rewrite styles_set_own by done. by rewrite lookup_insert_eq.
Qed.

(** X4: [saveStyle] then [setFolderStyle] in the project scope: looking the
    folder up, under any spelling with the same trailing-slash-free form,
    gives the style, its tags and the normalized path (for a style name and
    a normalized path other than ["__proto__"]). *)
Theorem save_set_getStyleForFolder (styleName folder query : string)
    (tgs : list string) (st : StyleStore) :
  styleName <> "__proto__" ->
  strip_trailing_slashes folder <> "__proto__" ->
  strip_trailing_slashes query = strip_trailing_slashes folder ->
  getStyleForFolderStore
    (setFolderStyle folder styleName Project (saveStyle styleName tgs Project st))
    query =
  Some {| style := Own styleName; tags := Own tgs;
          matchedPath := strip_trailing_slashes folder |}.
Proof.
  intros Hs Hf Hq.
  set (n := strip_trailing_slashes folder).
  assert (Hp : (readScope Project (setFolderStyle folder styleName Project
                  (saveStyle styleName tgs Project st))).1 =
               {| styles := {| styles_own := <[styleName := tgs]>
                                   (styles_own (styles (readScope Project st).1));
                               styles_proto := None |};
                  folders := plain_set_string (folders (readScope Project st).1)
                               n styleName |}).
  { unfold setFolderStyle, saveStyle. destruct (readScope Project st) as [c a].
    rewrite readScope_writeScope. cbv beta iota zeta.
    rewrite readScope_writeScope. cbn.
    by rewrite styles_set_own. }
  unfold getStyleForFolderStore, getStyleForFolder, styleForFolderIn.
  rewrite Hp, Hq. fold n.
  generalize (readScope Global (setFolderStyle folder styleName Project
                (saveStyle styleName tgs Project st))).1 as G. intros G.
  unfold resolve_at, getMergedConfig, plain_has, plain_get.
  cbn [merged_folders merged_styles styles folders styles_own].
  rewrite lookup_union, plain_set_string_lookup, decide_True by done.
  destruct (folders G !! n); cbn;
  rewrite lookup_union, lookup_insert_eq;
  destruct (styles_own (styles G) !! styleName); done.
Qed.

(** X6: [setFolderStyle] then [removeFolderStyle] on the same path and scope:
    the removal succeeds, and the scope is left with the styles it had and
    the associations it had before the two calls, minus the one of that
    path. *)
Theorem set_then_remove_folder (folderPath styleName : string) (scope : Scope)
    (st : StyleStore) :
  let c0 := (readScope scope st).1 in
  let n := strip_trailing_slashes folderPath in
  exists st',
    removeFolderStyle folderPath scope (setFolderStyle folderPath styleName scope st)
      = (true, st') /\
    styles_own (styles (readScope scope st').1) = styles_own (styles c0) /\
    folders (readScope scope st').1 = delete n (folders c0).
Proof.
  intros c0 n. unfold c0, n. clear c0 n.
  unfold setFolderStyle.
  destruct (readScope scope st) as [config aliased]. cbn [fst].
  unfold removeFolderStyle. rewrite readScope_writeScope.
  cbn [parse_file stringify_config file_folders folders styles].
  rewrite plain_set_string_has. eexists. split; [reflexivity|].
  rewrite readScope_writeScope. cbn. split; [done|].
  apply delete_plain_set_string.
Qed.

(** X7: for a scope whose [styles] object is plain and a name that is not
    a member of [Object.prototype], [deleteStyle(name, scope)] returns
    whether the scope has style [name]; when it has not, nothing changes;
    when it has, the scope afterwards has no style [name] and no
    association naming it, and keeps every other style and every
    association naming another style.  This holds whether or not the
    scope's file exists. *)
Theorem deleteStyle_scope_result (name : string) (scope : Scope) (st : StyleStore) :
  styles_proto (styles (readScope scope st).1) = None ->
  object_prototype_member name = None ->
  let c0 := (readScope scope st).1 in
  let '(found, st') := deleteStyle name scope st in
  found = bool_decide (is_Some (styles_own (styles c0) !! name)) /\
  (found = false -> st' = st) /\
  (found = true ->
     let c' := (readScope scope st').1 in
     styles_own (styles c') !! name = None /\
     (forall k, k <> name -> styles_own (styles c') !! k = styles_own (styles c0) !! k) /\
     forall path sn, folders c' !! path = Some sn <->
                     folders c0 !! path = Some sn /\ sn <> name).
Proof.
  intros Hp Hm c0. unfold c0 in *. unfold deleteStyle.
  destruct (readScope scope st) as [config aliased] eqn:Er. cbn [fst] in *.
  rewrite (styles_has_plain _ _ Hp Hm).
  destruct (bool_decide (is_Some (styles_own (styles config) !! name))) eqn:E.
  - split_and!; [done|discriminate|]. intros _.
    rewrite readScope_writeScope. cbn.
    split_and!.
    + apply lookup_delete_eq.
    + intros k Hk. by apply lookup_delete_ne.
    + intros path sn. rewrite map_lookup_filter_Some. done.
  - split_and!; done.
Qed.

(** X8: In the merged config every style and every folder path other than
    ["__proto__"] has a source recorded in [_sources] exactly when it is
    merged, so [list_styles] finds a source for each such entry it lists;
    ["__proto__"] never gets one. *)
Theorem merged_sources_domain (g p : StyleConfig) :
  let mc := getMergedConfig g p in
  (forall name, name <> "__proto__" ->
     is_Some (sources_styles mc !! name) <-> is_Some (merged_styles mc !! name)) /\
  (forall path, path <> "__proto__" ->
     is_Some (sources_folders mc !! path) <-> is_Some (merged_folders mc !! path)) /\
  sources_styles mc !! "__proto__" = None /\
  sources_folders mc !! "__proto__" = None.
Proof.
  simpl. split_and!.
  - intros name Hn. rewrite sources_lookup, lookup_union by done.
    destruct (styles_own (styles p) !! name), (styles_own (styles g) !! name); simpl;
      split; intros [? ?]; try discriminate; by eexists.
  - intros path Hn. rewrite sources_lookup, lookup_union by done.
    destruct (folders p !! path), (folders g !! path); simpl;
      split; intros [? ?]; try discriminate; by eexists.
  - apply sources_proto.
  - apply sources_proto.
Qed.

(** X15: in a merged config with ordinary names (every association names a
    style with an own entry or a name that is not a member of
    [Object.prototype], and no style is named like the text of such a
    member), [getStyleForFolder] resolves as documented: the normalized path
    itself when its association names an existing style; otherwise exactly
    the deepest ancestor directory whose association names an existing
    style; and [null] exactly when neither the path nor any ancestor has
    such an association.  The style and tags returned are then the own
    entries. *)
Theorem getStyleForFolder_nearest_ordinary (g p : StyleConfig) (folderPath : string) :
  ordinary_names (getMergedConfig g p) = true ->
  let config := getMergedConfig g p in
  let n := strip_trailing_slashes folderPath in
  (forall sn tg, resolves config n sn tg ->
     getStyleForFolder g p folderPath =
       Some {| style := Own sn; tags := Own tg; matchedPath := n |}) /\
  ((forall sn tg, ~ resolves config n sn tg) ->
   forall m, getStyleForFolder g p folderPath = Some m <->
     is_ancestor (matchedPath m) n /\
     (exists sn tg, style m = Own sn /\ tags m = Own tg /\
                    resolves config (matchedPath m) sn tg) /\
     (forall q sn tg, is_ancestor q n ->
        (String.length (matchedPath m) < String.length q)%nat ->
        ~ resolves config q sn tg)) /\
  (getStyleForFolder g p folderPath = None <->
   forall q sn tg, q = n \/ is_ancestor q n -> ~ resolves config q sn tg).
Proof.
  intros Hord config n.
  unfold getStyleForFolder, styleForFolderIn. fold config n.
  split_and!.
  - intros sn tg Hr.
    assert (Hs : resolve_at config n = Some {| style := Own sn; tags := Own tg;
                                               matchedPath := n |}).
    { apply resolve_at_Some_ordinary; [done|]. split; [done|].
      by exists sn, tg. }
    by rewrite Hs.
  - intros Hnone m.
    rewrite (proj2 (resolve_at_None_ordinary config n Hord) Hnone).
    rewrite walk_from_normalized, find_first_rev_Some by apply slash_prefixes_sorted.
    rewrite <- is_ancestor_slash_prefixes, resolve_at_Some_ordinary by done.
    split.
    + intros (Ha & (_ & Hr) & Hmax). split_and!; [done|done|].
      intros q sn tg Hq Hlen. apply resolve_at_None_ordinary; [done|].
      apply Hmax; [by apply is_ancestor_slash_prefixes|done].
    + intros (Ha & Hr & Hmax). split_and!; [done|done|exact Hr|].
      intros q Hq Hlen. apply resolve_at_None_ordinary; [done|]. intros sn tg.
      apply Hmax; [by apply is_ancestor_slash_prefixes|done].
  - destruct (resolve_at config n) as [m|] eqn:Hn.
    + split; [done|]. intros H.
      apply (resolve_at_Some_ordinary _ _ _ Hord) in Hn as (_ & sn & tg & _ & _ & Hr).
      destruct (H n sn tg (or_introl eq_refl) Hr).
    + rewrite walk_from_normalized, find_first_None. split.
      * intros H q sn tg [->|Hq].
        -- by apply resolve_at_None_ordinary.
        -- apply resolve_at_None_ordinary; [done|]. apply H.
           rewrite <- in_rev. by apply is_ancestor_slash_prefixes.
      * intros H q Hq. apply resolve_at_None_ordinary; [done|].
        intros sn tg. apply H. right. apply is_ancestor_slash_prefixes.
        by rewrite in_rev.
Qed.

Section RunInvariants.

Variable stringify_length : MetricsData -> Z.

Lemma trim_result (maxSizeBytes : Z) (d : MetricsData) :
  let d' := trimInvocationsForSize stringify_length d maxSizeBytes in
  (stringify_length d' <= maxSizeBytes \/ invocations d' = []) /\
  total_invocations d' = total_invocations d /\
  exists k, invocations d' = skipn k (invocations d).
Proof.
  pose proof (trim_exec_result stringify_length _ _ _
                (trimInvocationsForSize_exec stringify_length maxSizeBytes d))
    as (Hc & _ & _ & _ & Ht & _ & Hk).
  split_and!; [|done|done].
  rewrite trim_cond_unfold in Hc.
  apply andb_false_iff in Hc as [E|E]; apply bool_decide_eq_false in E.
  - left. lia.
  - right. apply length_zero_iff_nil. lia.
Qed.

Lemma persistToDisk_fields (c : MetricsCollector) :
  mc_initialized (persistToDisk stringify_length c) = mc_initialized c /\
  mc_maxSizeBytes (persistToDisk stringify_length c) = mc_maxSizeBytes c.
Proof. unfold persistToDisk. by destruct (mc_writeQueue c). Qed.

(** X9: On an initialized collector, [total_invocations] grows by one per
    [record] call and flushes leave it alone. *)
Theorem mc_run_total_invocations (c : MetricsCollector) (es : list mc_event) :
  mc_initialized c = true ->
  total_invocations (mc_data (mc_run stringify_length c es)) =
  total_invocations (mc_data c) + Z.of_nat (length (recorded es)).
Proof.
  revert c. induction es as [|e es IH]; intros c Hi; [simpl; lia|].
  rewrite mc_run_cons. destruct e as [now inv|]; cbn [mc_step recorded].
  - unfold record. rewrite Hi. cbn [negb fst].
    rewrite IH by done. cbn [mc_data total_invocations length]. lia.
  - destruct (persistToDisk_fields c) as [Hi' _].
    rewrite IH by (by rewrite Hi'). unfold persistToDisk.
    destruct (mc_writeQueue c); [done|]. simpl.
    by destruct (trim_result (mc_maxSizeBytes c) (mc_data c)) as (_ & -> & _).
Qed.

Lemma skipn_snoc {A} (k : nat) (l : list A) (x : A) :
  skipn k l ++ [x] = skipn (Nat.min k (length l)) (l ++ [x]).
Proof.
  rewrite skipn_app.
  destruct (Nat.le_ge_cases k (length l)) as [Hle|Hge].
  - rewrite Nat.min_l by done. by replace (k - length l)%nat with 0%nat by lia.
  - rewrite Nat.min_r by done. rewrite Nat.sub_diag.
    rewrite !skipn_all2 by lia. done.
Qed.

(** X10: On an initialized collector the in-memory invocations are always the
    newest part of everything it held and recorded since: [record]
    appends at the end and the trims only drop from the front. *)
Theorem mc_run_invocations_suffix (c : MetricsCollector) (es : list mc_event) :
  mc_initialized c = true ->
  exists k, invocations (mc_data (mc_run stringify_length c es)) =
            skipn k (invocations (mc_data c) ++ recorded es).
Proof.
  intros Hi.
  enough (H : forall c L k, mc_initialized c = true ->
    invocations (mc_data c) = skipn k L ->
    exists k', invocations (mc_data (mc_run stringify_length c es)) =
               skipn k' (L ++ recorded es)).
  { by apply (H c (invocations (mc_data c)) 0%nat). }
  clear c Hi. induction es as [|e es IH]; intros c L k Hi Hk.
  - exists k. by rewrite app_nil_r.
  - rewrite mc_run_cons. destruct e as [now inv|]; cbn [mc_step recorded].
    + assert (Hr : mc_initialized (fst (record now inv c)) = true /\
                     invocations (mc_data (fst (record now inv c))) =
                     invocations (mc_data c) ++ [inv])
        by (unfold record; by rewrite Hi).
      destruct Hr as [Hi1 Hv1].
      destruct (IH _ (L ++ [inv]) (Nat.min k (length L)) Hi1) as [k' Hk'].
      { rewrite Hv1, Hk. apply skipn_snoc. }
      exists k'. rewrite Hk'. by rewrite <- app_assoc.
    + destruct (persistToDisk_fields c) as [Hi' _].
      assert (Hp : exists k2, invocations (mc_data (persistToDisk stringify_length c))
                              = skipn k2 L).
      { unfold persistToDisk. destruct (mc_writeQueue c); [by exists k|]. cbn [mc_data].
        destruct (trim_result (mc_maxSizeBytes c) (mc_data c)) as (_ & _ & j & Hj).
        exists (j + k)%nat. by rewrite Hj, Hk, skipn_skipn. }
      destruct Hp as [k2 Hk2]. apply (IH _ L k2); [by rewrite Hi'|done].
Qed.

End RunInvariants.

Lemma updateToolStats_counts_new (inv : ToolInvocation) (m : gmap string ToolStats) :
  m !! tool inv = None ->
  exists st, updateToolStats inv m !! tool inv = Some st /\
    success_count st = (if success inv then 1 else 0) /\
    error_count st = (if success inv then 0 else 1) /\
    last_used st = timestamp inv.
Proof. intros H. unfold updateToolStats. rewrite H, lookup_insert_eq. by eexists. Qed.

Lemma updateToolStats_counts_existing (inv : ToolInvocation)
    (m : gmap string ToolStats) (ex : ToolStats) :
  m !! tool inv = Some ex ->
  exists st, updateToolStats inv m !! tool inv = Some st /\
    success_count st = success_count ex + (if success inv then 1 else 0) /\
    error_count st = error_count ex + (if success inv then 0 else 1) /\
    last_used st = timestamp inv.
Proof.
  intros H. unfold updateToolStats. rewrite H, lookup_insert_eq.
  eexists. split_and!; [done| | |done]; simpl; destruct (success inv); lia.
Qed.

Lemma filter_success_one (x : ToolInvocation) (b : bool) :
  length (filter (fun i => success i = b) [x]) =
  if bool_decide (success x = b) then 1%nat else 0%nat.
Proof.
  case_bool_decide as E.
  - by rewrite filter_cons_True, filter_nil.
  - by rewrite filter_cons_False, filter_nil.
Qed.

Lemma fold_counts_name (name : string) (l : list ToolInvocation)
    (m : gmap string ToolStats) :
  m !! name = None ->
  let invs := filter (fun i => tool i = name) l in
  let r := foldl (fun m inv => updateToolStats inv m) m l in
  (invs = [] /\ r !! name = None) \/
  (exists st, r !! name = Some st /\
     success_count st = Z.of_nat (length (filter (fun i => success i = true) invs)) /\
     error_count st = Z.of_nat (length (filter (fun i => success i = false) invs)) /\
     last (map timestamp invs) = Some (last_used st)).
Proof.
  intros Hm. induction l as [|x l IH] using rev_ind; simpl; [by left|].
  rewrite foldl_app, filter_app. simpl.
  set (r := foldl (fun m inv => updateToolStats inv m) m l) in *.
  set (invs := filter (fun i => tool i = name) l) in *.
  destruct (decide (tool x = name)) as [Hx|Hx].
  - rewrite filter_cons_True by done. rewrite filter_nil. right.
    rewrite !filter_app, map_app. cbn [map]. rewrite last_snoc.
    destruct IH as [[Hi Hr]|(st & Hr & Hs & He & Hl)].
    + rewrite Hi. rewrite <- Hx in Hr |- *.
      destruct (updateToolStats_counts_new x r Hr) as (st' & -> & Hs' & He' & Hl').
      exists st'. split_and!; [done| | |by rewrite Hl'];
        rewrite length_app, filter_success_one; simpl;
        destruct (success x); simpl; lia.
    + rewrite <- Hx in Hr |- *.
      destruct (updateToolStats_counts_existing x r st Hr)
        as (st' & -> & Hs' & He' & Hl').
      exists st'. split_and!; [done| | |by rewrite Hl'];
        rewrite length_app, filter_success_one;
        destruct (success x); simpl; lia.
  - rewrite filter_cons_False by done. rewrite filter_nil, app_nil_r.
    rewrite updateToolStats_other by done. exact IH.
Qed.

(** X12: For a tool name first recorded after initialization, the entry of that
    name counts the successful invocations in [success_count] and the
    failed ones in [error_count], and [last_used] is the timestamp of the
    latest one, whatever flushes happened in between. *)
Theorem tool_stats_outcomes (stringify_length : MetricsData -> Z)
    (c : MetricsCollector) (es : list mc_event) (name : string) :
  mc_initialized c = true ->
  tool_stats (mc_data c) !! name = None ->
  filter (fun i => tool i = name) (recorded es) <> [] ->
  let invs := filter (fun i => tool i = name) (recorded es) in
  exists st, tool_stats (mc_data (mc_run stringify_length c es)) !! name = Some st /\
    success_count st = Z.of_nat (length (filter (fun i => success i = true) invs)) /\
    error_count st = Z.of_nat (length (filter (fun i => success i = false) invs)) /\
    last (map timestamp invs) = Some (last_used st).
Proof.
  intros Hi Hn Hne invs.
  destruct (mc_run_tool_stats stringify_length c es Hi) as [_ ->].
  destruct (fold_counts_name name (recorded es) _ Hn) as [[Hnil _]|H]; [done|].
  exact H.
Qed.

Lemma take_app_take {A} (r l : list A) (n m : nat) :
  (n <= m)%nat -> take n (r ++ take m l) = take n (r ++ l).
Proof.
  revert n. induction r as [|y r IH]; intros n Hnm; cbn [app].
  - rewrite take_take. f_equal. lia.
  - destruct n as [|n]; [done|]. cbn [take]. f_equal. apply IH. lia.
Qed.

Lemma report_step (rc : ReportCall) (c : IssueCollector) :
  ic_initialized c = true ->
  exists issue c',
    report (rc_id rc) (rc_created rc) (rc_updated rc) (rc_params rc) c = inr (issue, c') /\
    ic_initialized c' = true /\ id issue = rc_id rc /\
    issues (ic_data c') = take 100 (issue :: issues (ic_data c)) /\
    total_issues (ic_data c') = total_issues (ic_data c) + 1.
Proof.
  intros Hi. unfold report. rewrite Hi. cbn [negb].
  eexists _, _. split; [reflexivity|]. cbn. split_and!; [done|done| |done].
  unfold MAX_ISSUES. case_bool_decide as Hlt; [done|].
  rewrite take_ge; [done|]. cbn [length] in *. lia.
Qed.

(** X13: Successive [report] calls on an initialized collector all succeed,
    return one issue per call with the generated ids, and leave the 100
    newest issues, newest first, of the returned issues and the ones held
    before (however many there were), while [total_issues] grows by the
    number of calls. *)
Theorem report_run_newest (calls : list ReportCall) (c : IssueCollector) :
  ic_initialized c = true ->
  calls <> [] ->
  exists out c',
    report_run calls c = inr (out, c') /\
    map id out = map rc_id calls /\
    issues (ic_data c') = take 100 (rev out ++ issues (ic_data c)) /\
    total_issues (ic_data c') = total_issues (ic_data c) + Z.of_nat (length calls).
Proof.
  intros Hi Hne. revert c Hi.
  induction calls as [|rc calls IH]; intros c Hi; [done|].
  destruct (report_step rc c Hi) as (issue & c1 & Hr & Hi1 & Hid & His & Ht).
  cbn [report_run]. rewrite Hr.
  destruct calls as [|rc' calls'].
  - cbn [report_run]. eexists [issue], c1.
    split_and!; [done|cbn [map]; by rewrite Hid|done|].
    rewrite Ht. simpl. lia.
  - destruct (IH ltac:(done) c1 Hi1) as (out & c' & Hr' & Hids & His' & Ht').
    rewrite Hr'. eexists (issue :: out), c'. split_and!; [done| |..].
    + cbn [map]. by rewrite Hids, Hid.
    + rewrite His', His. cbn [rev]. rewrite <- app_assoc. cbn [app].
      apply take_app_take. lia.
    + rewrite Ht', Ht. cbn [length]. lia.
Qed.

(* ===================================================================== *)
(** ** Instances of the theorems with hypotheses *)
(* ===================================================================== *)

Lemma tool_stats_aggregate_witness :
  mc_initialized (sample_collector true) = true /\
  tool_stats (mc_data (sample_collector true)) !! "search" = None /\
  filter (fun i => tool i = "search") (recorded sample_events) <> [] /\
  exists st,
    tool_stats (mc_data (mc_run sample_length (sample_collector true) sample_events))
      !! "search" = Some st /\
    call_count st = 3 /\ total_duration_ms st = 600 /\ avg_duration_ms st = 200.
Proof.
  split_and!; [reflexivity|reflexivity|vm_compute; discriminate|].
  destruct (tool_stats_aggregate sample_length (sample_collector true)
              sample_events "search" eq_refl eq_refl
              ltac:(vm_compute; discriminate))
    as (st & Hst & Hc & Ht & Ha & _).
  exists st. split_and!; [exact Hst|..].
  - rewrite Hc. vm_compute. reflexivity.
  - rewrite Ht. vm_compute. reflexivity.
  - rewrite Ha. vm_compute. reflexivity.
Defined.

Lemma stats_invariant_witness :
  map_Forall (fun _ st => stats_ok st) (tool_stats (mc_data (sample_collector true))) /\
  map_Forall (fun _ st => stats_ok st)
    (tool_stats (mc_data (mc_run sample_length (sample_collector true) sample_events))).
Proof.
  assert (H0 : map_Forall (fun _ st => stats_ok st)
                 (tool_stats (mc_data (sample_collector true))))
    by apply map_Forall_empty.
  split; [exact H0|].
  exact (stats_invariant sample_length (sample_collector true) sample_events H0).
Defined.

Lemma uninitialized_use_witness :
  mc_initialized (sample_collector false) = false /\
  ic_initialized (sample_issue_collector false 0) = false /\
  record "t1" (sample_invocation "search" 100 true) (sample_collector false) =
    (sample_collector false, ["MetricsCollector not initialized, skipping record"]) /\
  report "mk1-abc123" "t1" "t1" sample_params (sample_issue_collector false 0) =
    inl "IssueCollector not initialized".
Proof.
  split_and!; [reflexivity|reflexivity|..];
  apply (uninitialized_use "t1" (sample_invocation "search" 100 true)
           (sample_collector false) "mk1-abc123" "t1" "t1" sample_params
           (sample_issue_collector false 0) eq_refl eq_refl).
Defined.

Lemma report_bounded_witness :
  ic_initialized (sample_issue_collector true 100) = true /\
  exists issue c',
    report "mk1-abc123" "t1" "t1" sample_params (sample_issue_collector true 100)
      = inr (issue, c') /\
    length (issues (ic_data c')) = 100%nat /\ total_issues (ic_data c') = 101.
Proof.
  split; [reflexivity|].
  destruct (report_bounded "mk1-abc123" "t1" "t1" sample_params
              (sample_issue_collector true 100) eq_refl)
    as (issue & c' & Hr & _ & _ & Hl & Ht & _).
  exists issue, c'. split_and!; [exact Hr| |].
  - rewrite Hl. vm_compute. reflexivity.
  - rewrite Ht. vm_compute. reflexivity.
Defined.

Lemma saveStyle_project_getStyleTags_witness :
  "minimal" <> "__proto__" /\
  getStyleTags (saveStyle "minimal" ["flat"] Project initialStyleStore) "minimal" =
    Some (Own ["flat"]).
Proof.
  split; [discriminate|].
  exact (saveStyle_project_getStyleTags "minimal" ["flat"] initialStyleStore
           ltac:(discriminate)).
Defined.

Lemma saveStyle_global_getStyleTags_witness :
  project_file sample_style_store =
    Some {| file_styles := {[ "x" := ["pastel"] ]}; file_folders := ∅ |} /\
  getStyleTags (saveStyle "x" ["flat"] Global sample_style_store) "x" =
    Some (Own ["pastel"]) /\
  getStyleTags (saveStyle "y" ["flat"] Global sample_style_store) "y" =
    Some (Own ["flat"]).
Proof.
  split_and!; [reflexivity|..].
  - rewrite (saveStyle_global_getStyleTags "x" ["flat"] sample_style_store
               {| file_styles := {[ "x" := ["pastel"] ]}; file_folders := ∅ |}
               eq_refl ltac:(discriminate)).
    vm_compute. reflexivity.
  - rewrite (saveStyle_global_getStyleTags "y" ["flat"] sample_style_store
               {| file_styles := {[ "x" := ["pastel"] ]}; file_folders := ∅ |}
               eq_refl ltac:(discriminate)).
    vm_compute. reflexivity.
Defined.

Lemma save_set_getStyleForFolder_witness :
  strip_trailing_slashes "src/ui//" <> "__proto__" /\
  strip_trailing_slashes "src/ui" = strip_trailing_slashes "src/ui//" /\
  getStyleForFolderStore
    (setFolderStyle "src/ui//" "minimal" Project
       (saveStyle "minimal" ["flat"] Project initialStyleStore)) "src/ui" =
  Some {| style := Own "minimal"; tags := Own ["flat"]; matchedPath := "src/ui" |}.
Proof.
  split_and!; [vm_compute; discriminate|vm_compute; reflexivity|].
  rewrite (save_set_getStyleForFolder "minimal" "src/ui//" "src/ui" ["flat"]
             initialStyleStore ltac:(discriminate) ltac:(vm_compute; discriminate)
             ltac:(vm_compute; reflexivity)).
  vm_compute. reflexivity.
Defined.

Lemma deleteStyle_scope_result_witness :
  styles_proto (styles (readScope Project sample_style_store).1) = None /\
  object_prototype_member "x" = None /\
  (deleteStyle "x" Project sample_style_store).1 = true /\
  styles_own (styles (readScope Project (deleteStyle "x" Project sample_style_store).2).1)
    !! "x" = None.
Proof.
  pose proof (deleteStyle_scope_result "x" Project sample_style_store
                eq_refl ltac:(vm_compute; reflexivity)) as H.
  cbv zeta in H.
  destruct (deleteStyle "x" Project sample_style_store) as [found st'] eqn:E.
  destruct H as (Hf & _ & Ht).
  assert (Hfound : found = true) by (rewrite Hf; vm_compute; reflexivity).
  split_and!; [reflexivity|vm_compute; reflexivity|exact Hfound|].
  exact (proj1 (Ht Hfound)).
Defined.

Lemma getStyleForFolder_nearest_ordinary_witness :
  ordinary_names (getMergedConfig nearest_example emptyStyleConfig) = true /\
  getStyleForFolder nearest_example emptyStyleConfig "/a/b/" =
    Some {| style := Own "S2"; tags := Own ["tag2"]; matchedPath := "/a/b" |} /\
  getStyleForFolder nearest_example emptyStyleConfig "/a/x" =
    Some {| style := Own "S1"; tags := Own ["tag1"]; matchedPath := "/a" |}.
Proof.
  assert (Hord : ordinary_names (getMergedConfig nearest_example emptyStyleConfig) = true)
    by (vm_compute; reflexivity).
  split_and!; [exact Hord|..].
  - destruct (getStyleForFolder_nearest_ordinary nearest_example emptyStyleConfig
                "/a/b/" Hord) as (Hexact & _ & _).
    rewrite (Hexact "S2" ["tag2"]); [vm_compute; reflexivity|].
    split; vm_compute; reflexivity.
  - destruct (getStyleForFolder_nearest_ordinary nearest_example emptyStyleConfig
                "/a/x" Hord) as (_ & Hwalk & _).
    apply Hwalk.
    + intros sn tg [Hf _]. vm_compute in Hf. discriminate.
    + cbn [matchedPath style tags]. split_and!.
      * exists "x". reflexivity.
      * exists "S1", ["tag1"]. split_and!; [reflexivity|reflexivity|].
        split; vm_compute; reflexivity.
      * intros q sn tg Hq Hlen [Hf _].
        apply is_ancestor_slash_prefixes in Hq.
        vm_compute in Hq. destruct Hq as [<-|[<-|[]]]; vm_compute in Hlen; lia.
Defined.

Lemma mc_run_total_invocations_witness :
  mc_initialized (sample_collector true) = true /\
  total_invocations (mc_data (mc_run sample_length (sample_collector true) sample_events))
    = 4.
Proof.
  split; [reflexivity|].
  rewrite (mc_run_total_invocations sample_length (sample_collector true)
             sample_events eq_refl).
  vm_compute. reflexivity.
Defined.

Lemma mc_run_invocations_suffix_witness :
  mc_initialized (sample_collector true) = true /\
  exists k, invocations (mc_data (mc_run sample_length (sample_collector true)
                                     sample_events)) =
            skipn k (invocations (mc_data (sample_collector true)) ++
                     recorded sample_events).
Proof.
  split; [reflexivity|].
  exact (mc_run_invocations_suffix sample_length (sample_collector true)
           sample_events eq_refl).
Defined.

Lemma tool_stats_outcomes_witness :
  mc_initialized (sample_collector true) = true /\
  tool_stats (mc_data (sample_collector true)) !! "search" = None /\
  filter (fun i => tool i = "search") (recorded sample_events) <> [] /\
  exists st,
    tool_stats (mc_data (mc_run sample_length (sample_collector true) sample_events))
      !! "search" = Some st /\
    success_count st = 2 /\ error_count st = 1 /\
    last_used st = "2026-01-01T00:00:00.000Z".
Proof.
  split_and!; [reflexivity|reflexivity|vm_compute; discriminate|].
  destruct (tool_stats_outcomes sample_length (sample_collector true)
              sample_events "search" eq_refl eq_refl
              ltac:(vm_compute; discriminate))
    as (st & Hst & Hs & He & Hl).
  exists st. split_and!; [exact Hst|..].
  - rewrite Hs. vm_compute. reflexivity.
  - rewrite He. vm_compute. reflexivity.
  - assert (E : last (map timestamp (filter (fun i => tool i = "search")
                                       (recorded sample_events))) =
                 Some "2026-01-01T00:00:00.000Z") by (vm_compute; reflexivity).
    rewrite E in Hl. injection Hl as Hl. symmetry. exact Hl.
Defined.

Lemma report_run_newest_witness :
  ic_initialized (sample_issue_collector true 100) = true /\
  sample_calls <> [] /\
  exists out c',
    report_run sample_calls (sample_issue_collector true 100) = inr (out, c') /\
    map id out = ["mk1-abc123"; "mk2-def456"] /\
    length (issues (ic_data c')) = 100%nat /\
    total_issues (ic_data c') = 102.
Proof.
  split_and!; [reflexivity|discriminate|].
  destruct (report_run_newest sample_calls (sample_issue_collector true 100)
              eq_refl ltac:(discriminate))
    as (out & c' & Hr & Hids & His & Ht).
  exists out, c'. split_and!; [exact Hr|exact Hids| |].
  - pose proof (f_equal length Hids) as Hlen. rewrite !length_map in Hlen.
    rewrite His, length_take, length_app, length_rev, Hlen.
    vm_compute. reflexivity.
  - rewrite Ht. vm_compute. reflexivity.
Defined.
